(** * LibFS: a shallow embedding of the sector-based file system of LibFS.c

    The development follows [Team_20_Project_4/Code/LibFS.c] function by
    function.  The platform is the usual LP64 one: [int] is a 32-bit
    two's-complement integer stored little-endian, [size_t] (the type of
    every expression built with [sizeof]) is an unsigned 64-bit integer,
    [char] buffers are read as raw bytes in [0, 256), and neither
    [inode_t] nor [dirent_t] has padding.

    Integers are modelled as [Z].  Conversions between [int] and [size_t]
    are written out where the source mixes the two types; behaviour that C
    leaves undefined (an access outside a buffer, a failed [assert], a read
    of an uninitialised variable) is reported as a [Crash]. *)

From Stdlib Require Import ZArith String Ascii Lia.
From stdpp Require Import base list.

#[local] Open Scope Z_scope.

(** ** Outcomes of a C call *)

Inductive fault : Type :=
  | OutOfBounds      (* an array or buffer index outside its object *)
  | AssertFailed     (* [assert] aborted the process *)
  | Uninitialized    (* a variable or buffer was read before being written *)
  | IntOverflow.     (* signed arithmetic left the range of [int] *)

Inductive outcome (A : Type) : Type :=
  | Done (a : A)
  | Crash (f : fault).
Arguments Done {A} a.
Arguments Crash {A} f.

#[global] Instance outcome_ret : MRet outcome := @Done.
#[global] Instance outcome_bind : MBind outcome := fun A B k m =>
  match m with
  | Done a => k a
  | Crash f => Crash f
  end.

Definition guard (b : bool) (f : fault) : outcome unit :=
  if b then Done tt else Crash f.

(** ** Machine integers *)

Definition to_int (z : Z) : Z := (z + 2 ^ 31) mod 2 ^ 32 - 2 ^ 31.
Definition to_size_t (z : Z) : Z := z mod 2 ^ 64.
Definition in_int (z : Z) : bool := (- 2 ^ 31 <=? z) && (z <? 2 ^ 31).

Definition signum (n : Z) : Z :=
  if n =? 0 then 0 else if 0 <? n then 1 else -1.

(** ** Byte buffers *)

Definition buffer := list Z.

Definition peek (buf : buffer) (i : Z) : Z :=
  if 0 <=? i then default 0 (buf !! Z.to_nat i) else 0.

Definition poke (buf : buffer) (i v : Z) : buffer :=
  if 0 <=? i then <[Z.to_nat i := v]> buf else buf.

Definition in_buf (buf : buffer) (i : Z) : bool :=
  (0 <=? i) && (i <? Z.of_nat (length buf)).

(** [for (i = lo; i < hi; i++) buf[i] = v;] *)
Definition fill (buf : buffer) (lo hi v : Z) : buffer :=
  foldl (fun b i => poke b i v) buf (seqZ lo (hi - lo)).

(** [memcpy(dst + at_, src, n)] for the [n] bytes [src]. *)
Fixpoint blit (dst : buffer) (at_ : Z) (src : list Z) : buffer :=
  match src with
  | [] => dst
  | b :: rest => blit (poke dst at_ b) (at_ + 1) rest
  end.

(** [n] bytes of [buf] starting at [off]. *)
Definition slice (buf : buffer) (off n : Z) : list Z :=
  take (Z.to_nat n) (drop (Z.to_nat off) buf).

(** An [int] stored at byte offset [off]. *)
Definition get_int (buf : buffer) (off : Z) : Z :=
  to_int (peek buf off + 2 ^ 8 * peek buf (off + 1)
          + 2 ^ 16 * peek buf (off + 2) + 2 ^ 24 * peek buf (off + 3)).

Definition int_bytes (v : Z) : list Z :=
  let u := v mod 2 ^ 32 in
  [u mod 256; (u / 2 ^ 8) mod 256; (u / 2 ^ 16) mod 256; (u / 2 ^ 24) mod 256].

Definition set_int (buf : buffer) (off v : Z) : buffer :=
  blit buf off (int_bytes v).

(** ** Geometry

    [SECTOR_SIZE] and [TOTAL_SECTORS] come from LibDisk.h, [MAX_FILES] and
    [MAX_SECTORS_PER_FILE] from LibFS.h.  The headers are not part of
    LibFS.c, so the four constants are parameters of the development. *)

Class Geometry : Type := {
  SECTOR_SIZE : Z;
  TOTAL_SECTORS : Z;
  MAX_FILES : Z;
  MAX_SECTORS_PER_FILE : Z
}.

(** Modelled from the spec: the error codes of LibFS.h that a failed call
    leaves in [osErrno]. *)
Inductive os_error : Type :=
  | E_GENERAL | E_CREATE | E_NO_SUCH_FILE | E_NO_SUCH_DIR
  | E_TOO_MANY_OPEN_FILES | E_BAD_FD | E_FILE_IN_USE | E_FILE_TOO_BIG
  | E_NO_SPACE | E_SEEK_OUT_OF_BOUNDS | E_DIR_NOT_EMPTY | E_ROOT_DIR
  | E_BUFFER_TOO_SMALL.

#[global] Instance os_error_eq_dec : EqDecision os_error.
Proof. solve_decision. Defined.

Record open_file_t : Type := {
  inode : Z;   (* the inode of the file (0 means entry not used) *)
  size : Z;    (* file size cached here *)
  pos : Z      (* read/write position *)
}.

Definition disk := list buffer.

(** The state the functions share: the simulated disk, the open-file
    table and [osErrno] ([None] until a call records an error). *)
Record fs : Type := {
  the_disk : disk;
  open_files : list open_file_t;
  osErrno : option os_error
}.

Definition set_disk (d : disk) (st : fs) : fs :=
  {| the_disk := d; open_files := open_files st; osErrno := osErrno st |}.
Definition set_errno (e : os_error) (st : fs) : fs :=
  {| the_disk := the_disk st; open_files := open_files st; osErrno := Some e |}.
Definition set_open_files (t : list open_file_t) (st : fs) : fs :=
  {| the_disk := the_disk st; open_files := t; osErrno := osErrno st |}.

Section LibFS.
Context `{G : Geometry}.

Definition SUPERBLOCK_START_SECTOR : Z := 0.
Definition OS_MAGIC : Z := 0xdeadbeef.
Definition INODE_BITMAP_START_SECTOR : Z := 1.
Definition INODE_BITMAP_SIZE : Z := (MAX_FILES + 7) ÷ 8.
Definition INODE_BITMAP_SECTORS : Z :=
  (INODE_BITMAP_SIZE + SECTOR_SIZE - 1) ÷ SECTOR_SIZE.
Definition SECTOR_BITMAP_START_SECTOR : Z :=
  INODE_BITMAP_START_SECTOR + INODE_BITMAP_SECTORS.
Definition SECTOR_BITMAP_SIZE : Z := (TOTAL_SECTORS + 7) ÷ 8.
Definition SECTOR_BITMAP_SECTORS : Z :=
  (SECTOR_BITMAP_SIZE + SECTOR_SIZE - 1) ÷ SECTOR_SIZE.
Definition INODE_TABLE_START_SECTOR : Z :=
  SECTOR_BITMAP_START_SECTOR + SECTOR_BITMAP_SECTORS.

(** [sizeof(inode_t)]: two [int]s and [MAX_SECTORS_PER_FILE] sector indices. *)
Definition sizeof_inode_t : Z := 4 * (2 + MAX_SECTORS_PER_FILE).
(** These two are [size_t] values in the source. *)
Definition INODES_PER_SECTOR : Z := SECTOR_SIZE / sizeof_inode_t.
Definition INODE_TABLE_SECTORS : Z :=
  to_size_t (to_size_t (MAX_FILES + INODES_PER_SECTOR) - 1) / INODES_PER_SECTOR.
Definition DATABLOCK_START_SECTOR : Z :=
  to_size_t (INODE_TABLE_START_SECTOR + INODE_TABLE_SECTORS).

Definition MAX_PATH : Z := 256.
Definition MAX_NAME : Z := 16.
Definition MAX_OPEN_FILES : Z := 256.

(** [sizeof(dirent_t)]: [char fname[MAX_NAME]] followed by [int inode]. *)
Definition sizeof_dirent_t : Z := MAX_NAME + 4.
Definition DIRENTS_PER_SECTOR : Z := SECTOR_SIZE / sizeof_dirent_t.

(** ** The disk layer *)

(** Modelled from the spec: LibDisk's [Disk_Read], which is not part of
    LibFS.c.  It transfers exactly one sector and fails on a sector number
    outside the disk. *)
Definition Disk_Read (d : disk) (sector : Z) : option buffer :=
  if (0 <=? sector) && (sector <? TOTAL_SECTORS)
  then d !! Z.to_nat sector else None.

(** Modelled from the spec: LibDisk's [Disk_Write], which is not part of
    LibFS.c.  It stores one sector and fails on a sector number outside the
    disk. *)
Definition Disk_Write (d : disk) (sector : Z) (buf : buffer) : option disk :=
  if (0 <=? sector) && (sector <? TOTAL_SECTORS)
     && (sector <? Z.of_nat (length d))
  then Some (<[Z.to_nat sector := buf]> d) else None.

(** A [Disk_Write] whose return value the caller drops. *)
Definition Disk_Write_unchecked (d : disk) (sector : Z) (buf : buffer) : disk :=
  default d (Disk_Write d sector buf).

(** Modelled from the spec: the disk that LibDisk's [Disk_Init] hands out,
    every sector zero. *)
Definition Disk_Init : disk :=
  replicate (Z.to_nat TOTAL_SECTORS) (replicate (Z.to_nat SECTOR_SIZE) 0).

(** ** The bitmap engine *)

(** The sector writes [bitmap_init] issues, in program order. *)
Definition bitmap_init_writes (start num nbits : Z) : list (Z * buffer) :=
  let sectors_set_to_one := nbits ÷ 8 ÷ SECTOR_SIZE in
  let remaining_bytes := Z.rem (nbits ÷ 8) SECTOR_SIZE in
  let sectors_set_to_zero :=
    num - sectors_set_to_one - signum remaining_bytes in
  (* all full sectors *)
  let bitmap_buf := replicate (Z.to_nat SECTOR_SIZE) 0xff in
  let full :=
    (fun i => (i, bitmap_buf)) <$> seqZ start sectors_set_to_one in
  (* partial sector *)
  let bits := [0x0; 0x80; 0xC0; 0xE0; 0xF0; 0xF8; 0xFC; 0xFE] in
  let remaining := Z.rem nbits 8 in
  let bitmap_buf := poke bitmap_buf remaining_bytes (peek bits remaining) in
  let bitmap_buf := fill bitmap_buf (remaining_bytes + 1) SECTOR_SIZE 0 in
  let partial := (start + sectors_set_to_one, bitmap_buf) in
  (* sectors of zeros *)
  let bitmap_buf := fill bitmap_buf 0 remaining_bytes 0 in
  let end_of_sector := start + sectors_set_to_one + 1 + sectors_set_to_zero in
  let zeros :=
    (fun i => (i, bitmap_buf))
      <$> seqZ (start + sectors_set_to_one + 1)
               (end_of_sector - (start + sectors_set_to_one + 1)) in
  full ++ partial :: zeros.

Definition bitmap_init (d : disk) (start num nbits : Z) : disk :=
  foldl (fun d w => Disk_Write_unchecked d w.1 w.2) d
        (bitmap_init_writes start num nbits).

Definition bit_mask (n : Z) : Z := peek [128; 64; 32; 16; 8; 4; 2; 1] n.

Definition isBitSet (c n : Z) : bool := negb (Z.land c (bit_mask n) =? 0).
Definition setBit (c n : Z) : Z := Z.lor c (bit_mask n).

(** The inner [for (bit ...)] loop of [bitmap_first_unused] over one byte:
    either the buffer with the first clear bit set and its location, or the
    location counter after the last bit. *)
Fixpoint scan_bits (bitmap_buf : buffer) (a_byte : Z) (bits : list Z)
    (location : Z) : (buffer * Z) + Z :=
  match bits with
  | [] => inr location
  | bit :: rest =>
      let location := location + 1 in
      if isBitSet (peek bitmap_buf a_byte) bit
      then scan_bits bitmap_buf a_byte rest location
      else inl (poke bitmap_buf a_byte (setBit (peek bitmap_buf a_byte) bit),
                location)
  end.

(** The [for (a_byte ...)] loop. *)
Fixpoint scan_bytes (bitmap_buf : buffer) (bytes : list Z) (location : Z)
    : (buffer * Z) + Z :=
  match bytes with
  | [] => inr location
  | a_byte :: rest =>
      match scan_bits bitmap_buf a_byte (seqZ 0 8) location with
      | inl found => inl found
      | inr location => scan_bytes bitmap_buf rest location
      end
  end.

(** Write the sector back and return the location. *)
Definition bitmap_commit (st : fs) (i : Z) (found : buffer * Z) : Z * fs :=
  match Disk_Write (the_disk st) i found.1 with
  | None => (-1, set_errno E_GENERAL st)
  | Some d => (found.2, set_disk d st)
  end.

(** The [for (i = start; ...)] loop over the sectors of the bitmap. *)
Fixpoint bitmap_scan_sectors (st : fs) (sectors : list Z)
    (bytes_set_to_one remaining_bits : Z) (last_block : bool) (location : Z)
    : Z * fs :=
  match sectors with
  | [] => (-1, st)
  | i :: rest =>
      let last_block :=
        if bytes_set_to_one <? SECTOR_SIZE then true else last_block in
      match Disk_Read (the_disk st) i with
      | None => (-1, set_errno E_GENERAL st)
      | Some bitmap_buf =>
          let limit := if last_block then bytes_set_to_one else SECTOR_SIZE in
          match scan_bytes bitmap_buf (seqZ 0 limit) location with
          | inl found => bitmap_commit st i found
          | inr location =>
              let a_byte := Z.max 0 limit in
              if last_block then
                match scan_bits bitmap_buf a_byte (seqZ 0 remaining_bits)
                                location with
                | inl found => bitmap_commit st i found
                | inr location =>
                    bitmap_scan_sectors st rest bytes_set_to_one
                                        remaining_bits last_block location
                end
              else bitmap_scan_sectors st rest bytes_set_to_one
                                       remaining_bits last_block location
          end
      end
  end.

Definition bitmap_first_unused (st : fs) (start num nbits : Z) : Z * fs :=
  let bytes_set_to_one := nbits ÷ 8 in
  let remaining_bits := Z.rem nbits 8 in
  bitmap_scan_sectors st (seqZ start num) bytes_set_to_one remaining_bits
                      false (-1).

(** [bitmap_reset]'s [while (number_bytes > SECTOR_SIZE)] loop; every turn
    takes off at least one byte when [SECTOR_SIZE] is positive, so
    [Z.to_nat number_bytes] turns are enough. *)
Fixpoint reset_wind (turns : nat) (number_bytes : Z) : Z :=
  match turns with
  | O => number_bytes
  | S turns =>
      if SECTOR_SIZE <? number_bytes
      then reset_wind turns (number_bytes - SECTOR_SIZE)
      else number_bytes
  end.

Definition reset_mask (n : Z) : Z :=
  peek [127; 191; 223; 239; 247; 251; 253; 254] n.

Definition bitmap_reset (st : fs) (start num ibit : Z) : outcome (Z * fs) :=
  let number_bytes := ibit ÷ 8 in
  let remaining_bits := Z.rem ibit 8 in
  if SECTOR_SIZE * num <? number_bytes then Done (-1, st)
  else
    let number_bytes := reset_wind (Z.to_nat number_bytes) number_bytes in
    match Disk_Read (the_disk st) start with
    | None => Done (-1, set_errno E_GENERAL st)
    | Some bitmap_buf =>
        _ ← guard ((0 <=? remaining_bits) && (remaining_bits <? 8)) OutOfBounds;
        _ ← guard ((0 <=? number_bytes) && (number_bytes <? SECTOR_SIZE))
                  OutOfBounds;
        let bitmap_buf :=
          poke bitmap_buf number_bytes
               (Z.land (peek bitmap_buf number_bytes)
                       (reset_mask remaining_bits)) in
        match Disk_Write (the_disk st) start bitmap_buf with
        | None => Done (-1, set_errno E_GENERAL st)
        | Some d => Done (0, set_disk d st)
        end
    end.

(** ** C strings *)

(** The bytes of a C string: everything before the first NUL. *)
Fixpoint c_bytes (s : string) : list Z :=
  match s with
  | EmptyString => []
  | String c rest =>
      let b := Z.of_N (N_of_ascii c) in
      if b =? 0 then [] else b :: c_bytes rest
  end.

(** [strcmp(mem, s) == 0] for a NUL-free [s]: [mem] starts with the bytes
    of [s] followed by a NUL.  [strcmp] stops at the first difference, so it
    reads at most [strlen(s) + 1] bytes of [mem]. *)
Fixpoint strcmp_eq (mem : list Z) (s : list Z) : bool :=
  match s, mem with
  | [], m :: _ => m =? 0
  | c :: s', m :: mem' => (m =? c) && strcmp_eq mem' s'
  | _, [] => false
  end.

(** [strncpy(dst, src, n)] into a fresh field: [n] bytes, the string cut
    to [n] and padded with NULs. *)
Definition strncpy (src : list Z) (n : Z) : list Z :=
  take (Z.to_nat n) (src ++ replicate (Z.to_nat n) 0).

Definition isalpha (c : Z) : bool :=
  ((65 <=? c) && (c <=? 90)) || ((97 <=? c) && (c <=? 122)).
Definition isdigit (c : Z) : bool := (48 <=? c) && (c <=? 57).

Definition illegal_filename (name : list Z) : bool :=
  if MAX_NAME - 1 <? Z.of_nat (length name) then true
  else
    negb (forallb (fun current =>
                     isalpha current || isdigit current || (current =? 45)
                     || (current =? 95) || (current =? 46)) name).

(** ** Inodes and directory entries inside a sector buffer *)

(** The fields of the [inode_t] at byte offset [p] of [buf]. *)
Definition inode_size (buf : buffer) (p : Z) : Z := get_int buf p.
Definition inode_type (buf : buffer) (p : Z) : Z := get_int buf (p + 4).
Definition inode_data (buf : buffer) (p i : Z) : Z :=
  get_int buf (p + 8 + 4 * i).
Definition set_inode_size (buf : buffer) (p v : Z) : buffer := set_int buf p v.
Definition set_inode_type (buf : buffer) (p v : Z) : buffer :=
  set_int buf (p + 4) v.
Definition set_inode_data (buf : buffer) (p i v : Z) : buffer :=
  set_int buf (p + 8 + 4 * i) v.

(** [INODE_TABLE_START_SECTOR + i / INODES_PER_SECTOR], computed in
    [size_t] and stored in an [int]. *)
Definition inode_sector_of (i : Z) : Z :=
  to_int (to_size_t (INODE_TABLE_START_SECTOR
                     + to_size_t i / INODES_PER_SECTOR)).

(** [(sector - INODE_TABLE_START_SECTOR) * INODES_PER_SECTOR], computed in
    [size_t] and stored in an [int]. *)
Definition inode_start_entry_of (sector : Z) : Z :=
  to_int (to_size_t (to_size_t (sector - INODE_TABLE_START_SECTOR)
                     * INODES_PER_SECTOR)).

(** The lines every function repeats to find inode [i] in the buffer of
    [sector]: compute the offset, [assert] it, and point into the buffer. *)
Definition inode_ptr (sector i : Z) : outcome Z :=
  let offset := i - inode_start_entry_of sector in
  _ ← guard ((0 <=? offset) && (offset <? INODES_PER_SECTOR)) AssertFailed;
  Done (offset * sizeof_inode_t).

(** The fields of [((dirent_t* )buf)[i]]. *)
Definition dirent_fname (buf : buffer) (i : Z) : list Z :=
  drop (Z.to_nat (i * sizeof_dirent_t)) buf.
Definition dirent_inode (buf : buffer) (i : Z) : Z :=
  get_int buf (i * sizeof_dirent_t + MAX_NAME).

(** ** Path resolution *)

(** The [for] loop of [find_child_inode] over the slots of one sector. *)
Fixpoint scan_dirents (buf : buffer) (fname : list Z) (slots : list Z)
    (nentries : Z) : option Z :=
  match slots with
  | [] => None
  | i :: rest =>
      if nentries <? i then None
      else if strcmp_eq (dirent_fname buf i) fname
           then Some (dirent_inode buf i)
           else scan_dirents buf fname rest nentries
  end.

(** The inode cache: [cached_inode_sector] and [cached_inode_buffer]. *)
Definition inode_cache : Type := Z * buffer.

(** The [while (nentries > 0)] loop; [idxs] are the indices of [data[]]
    still to come, and going past the array is out of bounds. *)
Fixpoint scan_dir_sectors (d : disk) (parent : Z) (fname : list Z)
    (cache : inode_cache) (idxs : list Z) (nentries : Z)
    : outcome (Z * inode_cache) :=
  if nentries <=? 0 then Done (-1, cache)
  else
    match idxs with
    | [] => Crash OutOfBounds
    | idx :: rest =>
        match Disk_Read d (inode_data cache.2 parent idx) with
        | None => Done (-2, cache)
        | Some buf =>
            match scan_dirents buf fname (seqZ 0 DIRENTS_PER_SECTOR)
                               nentries with
            | Some child_inode =>
                let sector := inode_sector_of child_inode in
                if sector =? cache.1 then Done (child_inode, cache)
                else
                  match Disk_Read d sector with
                  | None => Done (-2, (sector, cache.2))
                  | Some b => Done (child_inode, (sector, b))
                  end
            | None =>
                scan_dir_sectors d parent fname cache rest
                  (to_int (to_size_t (to_size_t nentries
                                      - DIRENTS_PER_SECTOR)))
            end
        end
    end.

Definition find_child_inode (d : disk) (parent_inode : Z) (fname : list Z)
    (cache : inode_cache) : outcome (Z * inode_cache) :=
  parent ← inode_ptr cache.1 parent_inode;
  if negb (inode_type cache.2 parent =? 1) then Done (-2, cache)
  else
    scan_dir_sectors d parent fname cache (seqZ 0 MAX_SECTORS_PER_FILE)
                     (inode_size cache.2 parent).

(** The tokens [strsep(&lpath, "/")] hands out, empty ones included. *)
Fixpoint strsep_tokens (lpath : list Z) (token : list Z) : list (list Z) :=
  match lpath with
  | [] => [reverse token]
  | c :: rest =>
      if c =? 47 then reverse token :: strsep_tokens rest []
      else strsep_tokens rest (c :: token)
  end.

(** What [follow_path] hands back: its return value, [*last_inode] and
    [last_fname] when it wrote them. *)
Record path_result : Type := {
  fp_ret : Z;
  fp_last_inode : option Z;
  fp_last_fname : option (list Z)
}.

Definition path_failed (last_fname : option (list Z)) : path_result :=
  {| fp_ret := -1; fp_last_inode := None; fp_last_fname := last_fname |}.

(** The [while ((token = strsep(...)) != NULL)] loop and what follows it. *)
Fixpoint follow_tokens (d : disk) (tokens : list (list Z))
    (parent_inode child_inode : Z) (cache : inode_cache)
    (last_fname : option (list Z)) : outcome path_result :=
  match tokens with
  | [] =>
      if child_inode <? -1 then Done (path_failed last_fname)
      else
        let parent_inode :=
          if (parent_inode =? -1) && (child_inode =? 0) then 0
          else parent_inode in
        Done {| fp_ret := parent_inode; fp_last_inode := Some child_inode;
                fp_last_fname := last_fname |}
  | token :: rest =>
      match token with
      | [] => follow_tokens d rest parent_inode child_inode cache last_fname
      | _ =>
          if illegal_filename token then Done (path_failed last_fname)
          else if child_inode <? 0 then Done (path_failed last_fname)
          else
            let parent_inode := child_inode in
            r ← find_child_inode d parent_inode token cache;
            follow_tokens d rest parent_inode r.1 r.2 (Some token)
      end
  end.

Definition follow_path (d : disk) (path : string) : outcome path_result :=
  match c_bytes path with
  | [] => Done (path_failed None)
  | c :: rest =>
      if negb (c =? 47) then Done (path_failed None)
      else
        let pathstore := take (Z.to_nat (MAX_PATH - 1)) rest in
        let cached_sector := INODE_TABLE_START_SECTOR in
        match Disk_Read d cached_sector with
        | None => Done (path_failed None)
        | Some cached_buffer =>
            follow_tokens d (strsep_tokens pathstore []) (-1) 0
                          (cached_sector, cached_buffer) None
        end
  end.

(** ** Adding and removing inodes *)

(** [memset(buf + p, 0, n)] *)
Definition memset0 (buf : buffer) (p n : Z) : buffer := fill buf p (p + n) 0.

(** [a / DIRENTS_PER_SECTOR] and [a * DIRENTS_PER_SECTOR] for an [int] [a],
    computed in [size_t] and stored in an [int]. *)
Definition div_dirents (a : Z) : Z :=
  to_int (to_size_t a / DIRENTS_PER_SECTOR).
Definition mul_dirents (a : Z) : Z :=
  to_int (to_size_t (to_size_t a * DIRENTS_PER_SECTOR)).

Definition in_data (i : Z) : bool := (0 <=? i) && (i <? MAX_SECTORS_PER_FILE).

Definition add_inode (st : fs) (type parent_inode : Z) (file : list Z)
    : outcome (Z * fs) :=
  (* get a new inode for child *)
  let '(child_inode, st) :=
    bitmap_first_unused st INODE_BITMAP_START_SECTOR INODE_BITMAP_SECTORS
                        INODE_BITMAP_SIZE in
  if child_inode <? 0 then Done (-1, st)
  else
    (* load the disk sector containing the child inode *)
    let inode_sector := inode_sector_of child_inode in
    match Disk_Read (the_disk st) inode_sector with
    | None => Done (-1, st)
    | Some inode_buffer =>
        child ← inode_ptr inode_sector child_inode;
        (* update the new child inode and write to disk *)
        let inode_buffer := memset0 inode_buffer child sizeof_inode_t in
        let inode_buffer := set_inode_type inode_buffer child type in
        match Disk_Write (the_disk st) inode_sector inode_buffer with
        | None => Done (-1, st)
        | Some d =>
            let st := set_disk d st in
            (* get the disk sector containing the parent inode *)
            let inode_sector := inode_sector_of parent_inode in
            match Disk_Read (the_disk st) inode_sector with
            | None => Done (-1, st)
            | Some inode_buffer =>
                parent ← inode_ptr inode_sector parent_inode;
                if negb (inode_type inode_buffer parent =? 1)
                then Done (-2, st)
                else
                  let group := div_dirents (inode_size inode_buffer parent) in
                  (* get the dirent sector *)
                  let fetched : outcome (fs * option (buffer * buffer)) :=
                    if to_size_t (to_size_t group * DIRENTS_PER_SECTOR)
                       =? to_size_t (inode_size inode_buffer parent)
                    then
                      (* new disk sector is needed *)
                      let '(newsec, st) :=
                        bitmap_first_unused st SECTOR_BITMAP_START_SECTOR
                          SECTOR_BITMAP_SECTORS SECTOR_BITMAP_SIZE in
                      if newsec <? 0 then Done (st, None)
                      else
                        _ ← guard (in_data group) OutOfBounds;
                        Done (st, Some
                          (set_inode_data inode_buffer parent group newsec,
                           replicate (Z.to_nat SECTOR_SIZE) 0))
                    else
                      _ ← guard (in_data group) OutOfBounds;
                      match Disk_Read (the_disk st)
                              (inode_data inode_buffer parent group) with
                      | None => Done (st, None)
                      | Some dirent_buffer =>
                          Done (st, Some (inode_buffer, dirent_buffer))
                      end in
                  '(st, got) ← fetched;
                  match got with
                  | None => Done (-1, st)
                  | Some (inode_buffer, dirent_buffer) =>
                      (* add the dirent and write to disk *)
                      let start_entry := mul_dirents group in
                      let offset :=
                        inode_size inode_buffer parent - start_entry in
                      let dirent := offset * sizeof_dirent_t in
                      _ ← guard (in_buf dirent_buffer dirent
                                 && in_buf dirent_buffer
                                      (dirent + sizeof_dirent_t - 1))
                                OutOfBounds;
                      let dirent_buffer :=
                        blit dirent_buffer dirent (strncpy file MAX_NAME) in
                      let dirent_buffer :=
                        set_int dirent_buffer (dirent + MAX_NAME)
                                child_inode in
                      match Disk_Write (the_disk st)
                              (inode_data inode_buffer parent group)
                              dirent_buffer with
                      | None => Done (-1, st)
                      | Some d =>
                          let st := set_disk d st in
                          (* update parent inode and write to disk *)
                          let inode_buffer :=
                            set_inode_size inode_buffer parent
                              (inode_size inode_buffer parent + 1) in
                          match Disk_Write (the_disk st) inode_sector
                                           inode_buffer with
                          | None => Done (-1, st)
                          | Some d => Done (0, set_disk d st)
                          end
                      end
                  end
            end
        end
    end.

Definition create_file_or_directory (st : fs) (type : Z) (pathname : string)
    : outcome (Z * fs) :=
  r ← follow_path (the_disk st) pathname;
  let parent_inode := fp_ret r in
  if 0 <=? parent_inode then
    match fp_last_inode r with
    | None => Crash Uninitialized
    | Some child_inode =>
        if 0 <=? child_inode then Done (-1, set_errno E_CREATE st)
        else
          match fp_last_fname r with
          | None => Crash Uninitialized
          | Some last_fname =>
              '(res, st) ← add_inode st type parent_inode last_fname;
              if 0 <=? res then Done (0, st)
              else Done (-1, set_errno E_CREATE st)
          end
    end
  else Done (-1, set_errno E_CREATE st).

(** The loop of [remove_inode] that gives the data sectors of a file back;
    the return value of [bitmap_reset] is dropped. *)
Fixpoint reclaim_sectors (st : fs) (inode_buffer : buffer) (child : Z)
    (idxs : list Z) : outcome fs :=
  match idxs with
  | [] => Done st
  | i :: rest =>
      if 0 <? inode_data inode_buffer child i then
        r ← bitmap_reset st SECTOR_BITMAP_START_SECTOR SECTOR_BITMAP_SECTORS
                         (inode_data inode_buffer child i);
        reclaim_sectors r.2 inode_buffer child rest
      else reclaim_sectors st inode_buffer child rest
  end.

(** The bytes of the C string that starts [mem]. *)
Fixpoint mem_c_str (mem : list Z) : list Z :=
  match mem with
  | [] => []
  | b :: rest => if b =? 0 then [] else b :: mem_c_str rest
  end.

(** The inner [for (entry ...)] loop of [remove_inode]: the first entry of
    [dirent_buffer] whose inode is the child. *)
Fixpoint find_entry (dirent_buffer : buffer) (child_inode : Z)
    (entries : list Z) : option Z :=
  match entries with
  | [] => None
  | entry :: rest =>
      if dirent_inode dirent_buffer entry =? child_inode then Some entry
      else find_entry dirent_buffer child_inode rest
  end.

(** The outer [for (group ...)] loop of [remove_inode].  [last_dirent] is
    the byte offset of the last entry inside [last_dirent_buffer], a copy
    of its sector that is never written back; what the loop does to that
    copy after the swap therefore leaves no trace.  The result says whether
    the loop ran to its end ([false]: a disk call failed and the function
    returns -1). *)
Fixpoint swap_with_last (st : fs) (inode_sector : Z) (inode_buffer : buffer)
    (parent child_inode : Z) (last_dirent_buffer : buffer) (last_dirent : Z)
    (groups : list Z) : outcome (bool * fs) :=
  match groups with
  | [] => Done (true, st)
  | group :: rest =>
      match Disk_Read (the_disk st) (inode_data inode_buffer parent group) with
      | None => Done (false, st)
      | Some dirent_buffer =>
          match find_entry dirent_buffer child_inode
                           (seqZ 0 DIRENTS_PER_SECTOR) with
          | Some entry =>
              let current_dirent := entry * sizeof_dirent_t in
              _ ← guard (in_buf last_dirent_buffer last_dirent) OutOfBounds;
              let dirent_buffer :=
                blit dirent_buffer current_dirent
                  (strncpy (mem_c_str
                              (take (Z.to_nat MAX_NAME)
                                    (drop (Z.to_nat last_dirent)
                                          last_dirent_buffer)))
                           MAX_NAME) in
              let dirent_buffer :=
                set_int dirent_buffer (current_dirent + MAX_NAME)
                        (get_int last_dirent_buffer
                                 (last_dirent + MAX_NAME)) in
              match Disk_Write (the_disk st)
                      (inode_data inode_buffer parent group)
                      dirent_buffer with
              | None => Done (false, st)
              | Some d =>
                  let st := set_disk d st in
                  match Disk_Write (the_disk st) inode_sector inode_buffer with
                  | None => Done (false, st)
                  | Some d => Done (true, set_disk d st)
                  end
              end
          | None =>
              swap_with_last st inode_sector inode_buffer parent child_inode
                             last_dirent_buffer last_dirent rest
          end
      end
  end.

Definition remove_inode (st : fs) (type parent_inode child_inode : Z)
    : outcome (Z * fs) :=
  (* load the child inode sector *)
  let inode_sector := inode_sector_of child_inode in
  match Disk_Read (the_disk st) inode_sector with
  | None => Done (-1, st)
  | Some inode_buffer =>
      child ← inode_ptr inode_sector child_inode;
      if negb (inode_type inode_buffer child =? type) then Done (-3, st)
      else if (inode_type inode_buffer child =? 1)
              && (0 <? inode_size inode_buffer child)
      then Done (-2, st)
      else
        (* reclaim the data sectors of a file *)
        st ← (if inode_type inode_buffer child =? 0
              then reclaim_sectors st inode_buffer child
                                   (seqZ 0 MAX_SECTORS_PER_FILE)
              else Done st);
        (* clear the child inode and write to disk *)
        let inode_buffer := memset0 inode_buffer child sizeof_inode_t in
        match Disk_Write (the_disk st) inode_sector inode_buffer with
        | None => Done (-1, st)
        | Some d =>
            let st := set_disk d st in
            r ← bitmap_reset st INODE_BITMAP_START_SECTOR INODE_BITMAP_SECTORS
                             child_inode;
            let st := r.2 in
            (* update the parent inode *)
            let inode_sector := inode_sector_of parent_inode in
            match Disk_Read (the_disk st) inode_sector with
            | None => Done (-1, st)
            | Some inode_buffer =>
                parent ← inode_ptr inode_sector parent_inode;
                if negb (inode_type inode_buffer parent =? 1)
                then Done (-2, st)
                else
                  '(ok, st) ←
                    (if 1 <? inode_size inode_buffer parent then
                       (* look for the last dirent entry of the parent *)
                       let last_group :=
                         div_dirents (inode_size inode_buffer parent) in
                       _ ← guard (in_data last_group) OutOfBounds;
                       let last_sector :=
                         inode_data inode_buffer parent last_group in
                       match Disk_Read (the_disk st) last_sector with
                       | None => Done (false, st)
                       | Some last_dirent_buffer =>
                           let start_entry := mul_dirents last_group in
                           let offset :=
                             inode_size inode_buffer parent - start_entry - 1 in
                           swap_with_last st inode_sector inode_buffer
                             parent child_inode last_dirent_buffer
                             (offset * sizeof_dirent_t)
                             (seqZ 0 MAX_SECTORS_PER_FILE)
                       end
                     else Done (true, st));
                  match ok with
                  | false => Done (-1, st)
                  | true =>
                      (* update parent inode and write to disk *)
                      let inode_buffer :=
                        set_inode_size inode_buffer parent
                          (inode_size inode_buffer parent - 1) in
                      match Disk_Write (the_disk st) inode_sector
                                       inode_buffer with
                      | None => Done (-1, st)
                      | Some d => Done (0, set_disk d st)
                      end
                  end
            end
        end
  end.

(** ** The open-file table *)

Definition closed_file : open_file_t := {| inode := 0; size := 0; pos := 0 |}.

(** [open_files[i]] for an index inside the table. *)
Definition slot (st : fs) (i : Z) : open_file_t :=
  nth (Z.to_nat i) (open_files st) closed_file.

Definition set_slot (st : fs) (i : Z) (f : open_file_t) : fs :=
  set_open_files (<[Z.to_nat i := f]> (open_files st)) st.

Definition in_table (fd : Z) : bool := (0 <=? fd) && (fd <? MAX_OPEN_FILES).

Definition is_file_open (st : fs) (inode_ : Z) : bool :=
  existsb (fun i => inode (slot st i) =? inode_) (seqZ 0 MAX_OPEN_FILES).

Definition new_file_fd (st : fs) : Z :=
  default (-1) (find (fun i => inode (slot st i) <=? 0) (seqZ 0 MAX_OPEN_FILES)).

(** ** The API *)

(** What LibDisk's [Disk_Load] reports to [FS_Boot]: the image it loaded and
    the length of the backing file, or why it failed. *)
Inductive load_result : Type :=
  | Load_ok (image : disk) (file_length : Z)
  | Load_cannot_open          (* [diskErrno == E_OPENING_FILE] *)
  | Load_error.

Definition check_magic (d : disk) : bool :=
  match Disk_Read d SUPERBLOCK_START_SECTOR with
  | None => false
  | Some buf => get_int buf 0 mod 2 ^ 32 =? OS_MAGIC
  end.

(** The loop of [FS_Boot] that formats the inode table. *)
Fixpoint format_inode_table (d : disk) (rows : list Z) : option disk :=
  match rows with
  | [] => Some d
  | i :: rest =>
      let buf := replicate (Z.to_nat SECTOR_SIZE) 0 in
      let buf :=
        if i =? 0 then set_inode_type (set_inode_size buf 0 0) 0 1 else buf in
      match Disk_Write d (INODE_TABLE_START_SECTOR + i) buf with
      | None => None
      | Some d => format_inode_table d rest
      end
  end.

Definition zero_open_files : list open_file_t :=
  replicate (Z.to_nat MAX_OPEN_FILES) closed_file.

(** [FS_Boot].  [st] holds the globals before the call; [init_ok], [load]
    and [save_ok] are the answers of [Disk_Init], [Disk_Load] and
    [Disk_Save]. *)
Definition FS_Boot (st : fs) (init_ok : bool) (load : load_result)
    (save_ok : bool) : Z * fs :=
  if negb init_ok then (-1, set_errno E_GENERAL st)
  else
    let st := set_disk Disk_Init st in
    match load with
    | Load_cannot_open =>
        (* format superblock *)
        let buf := replicate (Z.to_nat SECTOR_SIZE) 0 in
        let buf := set_int buf 0 OS_MAGIC in
        match Disk_Write (the_disk st) SUPERBLOCK_START_SECTOR buf with
        | None => (-1, set_errno E_GENERAL st)
        | Some d =>
            (* format inode bitmap (reserve the first inode to root) *)
            let d := bitmap_init d INODE_BITMAP_START_SECTOR
                                 INODE_BITMAP_SECTORS 1 in
            (* format sector bitmap *)
            let d := bitmap_init d SECTOR_BITMAP_START_SECTOR
                                 SECTOR_BITMAP_SECTORS
                                 (to_int DATABLOCK_START_SECTOR) in
            (* format inode tables *)
            match format_inode_table d (seqZ 0 INODE_TABLE_SECTORS) with
            | None => (-1, set_errno E_GENERAL (set_disk d st))
            | Some d =>
                let st := set_disk d st in
                if save_ok then (0, set_open_files zero_open_files st)
                else (-1, set_errno E_GENERAL st)
            end
        end
    | Load_error => (-1, set_errno E_GENERAL st)
    | Load_ok image sz =>
        let st := set_disk image st in
        if negb (sz =? SECTOR_SIZE * TOTAL_SECTORS)
        then (-1, set_errno E_GENERAL st)
        else if check_magic (the_disk st)
             then (0, set_open_files zero_open_files st)
             else (-1, set_errno E_GENERAL st)
    end.

Definition File_Create (st : fs) (file : string) : outcome (Z * fs) :=
  create_file_or_directory st 0 file.

Definition File_Unlink (st : fs) (file : string) : outcome (Z * fs) :=
  r ← follow_path (the_disk st) file;
  let parent_inode := fp_ret r in
  if 0 <=? parent_inode then
    match fp_last_inode r with
    | None => Crash Uninitialized
    | Some child_inode =>
        if 0 <=? child_inode then
          if is_file_open st child_inode
          then Done (-1, set_errno E_FILE_IN_USE st)
          else
            '(result, st) ← remove_inode st 0 parent_inode child_inode;
            if result =? 0 then Done (0, st)
            else if result =? -1 then Done (-1, set_errno E_GENERAL st)
            else if result =? -2 then Done (-1, set_errno E_DIR_NOT_EMPTY st)
            else if result =? -3 then Done (-1, set_errno E_GENERAL st)
            else Done (-1, st)
        else Done (-1, set_errno E_NO_SUCH_FILE st)
    end
  else Done (-1, set_errno E_NO_SUCH_FILE st).

Definition File_Open (st : fs) (file : string) : outcome (Z * fs) :=
  let fd := new_file_fd st in
  if fd <? 0 then Done (-1, set_errno E_TOO_MANY_OPEN_FILES st)
  else
    r ← follow_path (the_disk st) file;
    match fp_last_inode r with
    | None => Crash Uninitialized
    | Some child_inode =>
        if 0 <=? child_inode then
          (* load the disk sector containing the inode *)
          let inode_sector := inode_sector_of child_inode in
          match Disk_Read (the_disk st) inode_sector with
          | None => Done (-1, set_errno E_GENERAL st)
          | Some inode_buffer =>
              child ← inode_ptr inode_sector child_inode;
              if negb (inode_type inode_buffer child =? 0)
              then Done (-1, set_errno E_GENERAL st)
              else
                (* initialize open file entry and return its index *)
                Done (fd, set_slot st fd
                            {| inode := child_inode;
                               size := inode_size inode_buffer child;
                               pos := 0 |})
          end
        else Done (-1, set_errno E_NO_SUCH_FILE st)
    end.

(** [to_read] and [to_write] of the two copy loops. *)
Definition chunk (left current_position_in_sector : Z) : Z :=
  if SECTOR_SIZE <? left then SECTOR_SIZE - current_position_in_sector
  else left - current_position_in_sector.

(** [File_Read] returns its value together with the bytes it copied to the
    start of the caller's buffer. *)
Definition File_Read (st : fs) (fd : Z) (size_ : Z)
    : outcome (Z * list Z * fs) :=
  if negb (is_file_open st fd) then Done (-1, [], set_errno E_BAD_FD st)
  else
    _ ← guard (in_table fd) OutOfBounds;
    let f := slot st fd in
    if pos f =? size f then Done (0, [], st)
    else
      (* load the disk sector containing the inode *)
      let inode_sector := inode_sector_of (inode f) in
      match Disk_Read (the_disk st) inode_sector with
      | None => Done (-1, [], set_errno E_GENERAL st)
      | Some inode_buffer =>
          child ← inode_ptr inode_sector (inode f);
          let left := size_ in
          let current_position_in_sector := Z.rem (pos f) SECTOR_SIZE in
          let current_sector := pos f ÷ SECTOR_SIZE in
          (* the body of the [while] ends in [return], so it runs once *)
          if (0 <? left) && (pos f <? size f) then
            _ ← guard (in_data current_sector) OutOfBounds;
            let to_read := chunk left current_position_in_sector in
            _ ← guard ((0 <=? to_read) && (0 <=? current_position_in_sector))
                      OutOfBounds;
            copied ←
              match Disk_Read (the_disk st)
                      (inode_data inode_buffer child current_sector) with
              | Some data_buf =>
                  Done (slice data_buf current_position_in_sector to_read)
              | None =>
                  if to_read =? 0 then Done [] else Crash Uninitialized
              end;
            let new_pos := pos f + to_read in
            let new_pos := if size f <? new_pos then size f else new_pos in
            Done (to_read, copied,
                  set_slot st fd
                    {| inode := inode f; size := size f; pos := new_pos |})
          else Done (-1, [], st)
      end.

(** The allocation loop of [File_Write]: [Some] of the grown inode buffer,
    or [None] when the bitmap gave nothing. *)
Fixpoint allocate_sectors (st : fs) (inode_buffer : buffer) (child : Z)
    (idxs : list Z) : outcome (fs * option buffer) :=
  match idxs with
  | [] => Done (st, Some inode_buffer)
  | i :: rest =>
      let '(next, st) :=
        bitmap_first_unused st SECTOR_BITMAP_START_SECTOR
                            SECTOR_BITMAP_SECTORS SECTOR_BITMAP_SIZE in
      if next <? 0 then Done (set_errno E_NO_SPACE st, None)
      else
        _ ← guard (in_data i) OutOfBounds;
        allocate_sectors st (set_inode_data inode_buffer child i next) child
                         rest
  end.

(** The copy loop of [File_Write] over the sectors from [current_sector]
    up to [allocated_sectors]; it returns the disk, [left] and [f->pos]. *)
Fixpoint write_sectors (d : disk) (inode_buffer : buffer) (child : Z)
    (data : list Z) (sectors : list Z)
    (left current_position_in_sector pos_ in_pos : Z)
    : outcome (disk * Z * Z) :=
  match sectors with
  | [] => Done (d, left, pos_)
  | current_sector :: rest =>
      if 0 <? left then
        _ ← guard (in_data current_sector) OutOfBounds;
        let to_write := chunk left current_position_in_sector in
        _ ← guard ((0 <=? to_write) && (0 <=? current_position_in_sector)
                   && (0 <=? in_pos)
                   && (in_pos + to_write <=? Z.of_nat (length data)))
                  OutOfBounds;
        let sector := inode_data inode_buffer child current_sector in
        let d :=
          match Disk_Read d sector with
          | Some data_buf =>
              Disk_Write_unchecked d sector
                (blit data_buf current_position_in_sector
                      (slice data in_pos to_write))
          | None => d
          end in
        write_sectors d inode_buffer child data rest (left - to_write) 0
                      (pos_ + to_write) (in_pos + to_write)
      else Done (d, left, pos_)
  end.

Definition File_Write (st : fs) (fd : Z) (data : list Z) (size_ : Z)
    : outcome (Z * fs) :=
  if negb (is_file_open st fd) then Done (-1, set_errno E_BAD_FD st)
  else
    _ ← guard (in_table fd) OutOfBounds;
    let f := slot st fd in
    _ ← guard (in_int (pos f + size_)) IntOverflow;
    if MAX_SECTORS_PER_FILE * SECTOR_SIZE <? pos f + size_
    then Done (-1, set_errno E_FILE_TOO_BIG st)
    else
      (* load the disk sector containing the inode *)
      let inode_sector := inode_sector_of (inode f) in
      match Disk_Read (the_disk st) inode_sector with
      | None => Done (-1, set_errno E_GENERAL st)
      | Some inode_buffer =>
          child ← inode_ptr inode_sector (inode f);
          let allocated_sectors := (size f + SECTOR_SIZE - 1) ÷ SECTOR_SIZE in
          let needed_sectors :=
            (size_ - (allocated_sectors * SECTOR_SIZE - pos f)
             + SECTOR_SIZE - 1) ÷ SECTOR_SIZE in
          '(st, grown) ←
            allocate_sectors st inode_buffer child
                             (seqZ allocated_sectors needed_sectors);
          match grown with
          | None => Done (-1, st)
          | Some inode_buffer =>
              (* the inode goes to disk before [child->size] is updated *)
              let d := Disk_Write_unchecked (the_disk st) inode_sector
                                            inode_buffer in
              let allocated_sectors := allocated_sectors + needed_sectors in
              let new_size := pos f + size_ in
              let current_position_in_sector := Z.rem (pos f) SECTOR_SIZE in
              let current_sector := pos f ÷ SECTOR_SIZE in
              '(d, left_, new_pos) ←
                write_sectors d inode_buffer child data
                  (seqZ current_sector (allocated_sectors - current_sector))
                  size_ current_position_in_sector (pos f) 0;
              Done (size_ - left_,
                    set_slot (set_disk d st) fd
                      {| inode := inode f; size := new_size; pos := new_pos |})
          end
      end.

Definition File_Seek (st : fs) (fd offset : Z) : outcome (Z * fs) :=
  _ ← guard (in_table fd) OutOfBounds;
  let f := slot st fd in
  if negb (is_file_open st (inode f)) then Done (-1, set_errno E_BAD_FD st)
  else if (size f <? offset) || (size f <? 0)
  then Done (-1, set_errno E_SEEK_OUT_OF_BOUNDS st)
  else
    Done (offset,
          set_slot st fd {| inode := inode f; size := size f; pos := offset |}).

Definition File_Close (st : fs) (fd : Z) : outcome (Z * fs) :=
  if (fd <? 0) || (MAX_OPEN_FILES <? fd) then Done (-1, set_errno E_BAD_FD st)
  else
    _ ← guard (in_table fd) OutOfBounds;
    if inode (slot st fd) <=? 0 then Done (-1, set_errno E_BAD_FD st)
    else
      Done (0, set_slot st fd {| inode := 0; size := size (slot st fd);
                                 pos := pos (slot st fd) |}).

Definition Dir_Create (st : fs) (path : string) : outcome (Z * fs) :=
  create_file_or_directory st 1 path.

Definition Dir_Unlink (st : fs) (path : string) : outcome (Z * fs) :=
  r ← follow_path (the_disk st) path;
  let parent_inode := fp_ret r in
  if strcmp_eq (c_bytes path ++ [0]) [47]
  then Done (-1, set_errno E_ROOT_DIR st)
  else if parent_inode <? 0 then Done (-1, set_errno E_NO_SUCH_DIR st)
  else
    match fp_last_inode r with
    | None => Crash Uninitialized
    | Some child_inode =>
        '(res, st) ← remove_inode st 1 parent_inode child_inode;
        if res <? 0 then Done (-1, set_errno E_DIR_NOT_EMPTY st)
        else Done (0, st)
    end.

Definition FS_Sync (st : fs) (save_ok : bool) : Z * fs :=
  if save_ok then (0, st) else (-1, set_errno E_GENERAL st).

Definition Dir_Size (st : fs) (path : string) : outcome (Z * fs) :=
  r ← follow_path (the_disk st) path;
  let parent_inode := fp_ret r in
  if parent_inode <? 0 then Done (-1, set_errno E_NO_SUCH_DIR st)
  else
    match fp_last_inode r with
    | None => Crash Uninitialized
    | Some child_inode =>
        if 0 <=? child_inode then
          (* load the disk sector containing the inode *)
          let inode_sector := inode_sector_of child_inode in
          match Disk_Read (the_disk st) inode_sector with
          | None => Done (-1, set_errno E_GENERAL st)
          | Some inode_buffer =>
              child ← inode_ptr inode_sector child_inode;
              if negb (inode_type inode_buffer child =? 1) then Done (-1, st)
              else
                Done (to_int (to_size_t (to_size_t (inode_size inode_buffer child)
                                         * sizeof_dirent_t)), st)
          end
        else Done (0, st)
    end.

(** The loop of [Dir_Read] over the full sectors: [i] runs from 0 while
    [i < child->size / DIRENTS_PER_SECTOR]; [idxs] are the indices of
    [data[]] still to come, [cap] is the room in the caller's buffer.
    [None] stands for the [return -1] after a failed read. *)
Fixpoint read_full_sectors (d : disk) (inode_buffer : buffer) (child : Z)
    (idxs : list Z) (i full cap : Z) (out : list Z)
    : outcome (option (list Z)) :=
  if full <=? i then Done (Some out)
  else
    match idxs with
    | [] => Crash OutOfBounds
    | _ :: rest =>
        match Disk_Read d (inode_data inode_buffer child i) with
        | None => Done None
        | Some sec_buf =>
            let out :=
              out ++ slice sec_buf 0 (DIRENTS_PER_SECTOR * sizeof_dirent_t) in
            _ ← guard (Z.of_nat (length out) <=? cap) OutOfBounds;
            read_full_sectors d inode_buffer child rest (i + 1) full cap out
        end
    end.

(** [Dir_Read] returns its value together with the bytes it copied to the
    caller's buffer, which holds [size_] bytes. *)
Definition Dir_Read (st : fs) (path : string) (size_ : Z)
    : outcome (Z * list Z * fs) :=
  r ← follow_path (the_disk st) path;
  let parent_node := fp_ret r in
  if parent_node <? 0 then Done (-1, [], set_errno E_NO_SUCH_DIR st)
  else
    match fp_last_inode r with
    | None => Crash Uninitialized
    | Some child_node =>
        let inode_sector := inode_sector_of child_node in
        match Disk_Read (the_disk st) inode_sector with
        | None => Done (-1, [], st)
        | Some inode_buffer =>
            let offset := to_int (to_size_t child_node mod INODES_PER_SECTOR) in
            let child := offset * sizeof_inode_t in
            let child_size := inode_size inode_buffer child in
            if to_size_t size_
               <? to_size_t (to_size_t child_size * sizeof_dirent_t)
            then Done (-1, [], set_errno E_BUFFER_TOO_SMALL st)
            else
              (* copy all dirents in full sectors *)
              full ← read_full_sectors (the_disk st) inode_buffer child
                     (seqZ 0 MAX_SECTORS_PER_FILE) 0
                     (to_size_t child_size / DIRENTS_PER_SECTOR) size_ [];
              match full with
              | None => Done (-1, [], st)
              | Some out =>
                  (* copy over the last, partially filled sector *)
                  let left :=
                    to_int (to_size_t child_size mod DIRENTS_PER_SECTOR) in
                  if 0 <? left then
                    let group := div_dirents child_size in
                    _ ← guard (in_data group) OutOfBounds;
                    match Disk_Read (the_disk st)
                            (inode_data inode_buffer child group) with
                    | None => Done (-1, [], st)
                    | Some sec_buf =>
                        let out :=
                          out ++ slice sec_buf 0 (left * sizeof_dirent_t) in
                        _ ← guard (Z.of_nat (length out) <=? size_)
                                  OutOfBounds;
                        Done (child_size, out, st)
                    end
                  else Done (child_size, out, st)
              end
        end
    end.

End LibFS.

(** The geometry the scenarios run on: 512-byte sectors, 10000 sectors,
    1000 files, 30 sectors per file. *)
Definition std_geometry : Geometry := {|
  SECTOR_SIZE := 512;
  TOTAL_SECTORS := 10000;
  MAX_FILES := 1000;
  MAX_SECTORS_PER_FILE := 30
|}.




(** ** Reading the model's answers *)

(** Bit [k] of the bitmap whose first sector is [start]: most significant
    bit first inside each byte, [8 * SECTOR_SIZE] bits to a sector. *)
Definition bitmap_bit `{G : Geometry} (d : disk) (start k : Z) : bool :=
  match Disk_Read d (start + k / (8 * SECTOR_SIZE)) with
  | Some buf => isBitSet (peek buf ((k / 8) mod SECTOR_SIZE)) (k mod 8)
  | None => false
  end.

(** Bit [k] of one bitmap sector, and the sector with that bit set. *)
Definition bit_at (buf : buffer) (k : Z) : bool :=
  isBitSet (peek buf (k / 8)) (k mod 8).
Definition mark (buf : buffer) (k : Z) : buffer :=
  poke buf (k / 8) (setBit (peek buf (k / 8)) (k mod 8)).

(** Some entry of the open-file table carries inode number [x]. *)
Definition names_inode `{G : Geometry} (st : fs) (x : Z) : Prop :=
  exists i, 0 <= i < MAX_OPEN_FILES /\ inode (slot st i) = x.

(** The call came back with [osErrno] set to [E_BAD_FD]. *)
Definition bad_fd {A : Type} (o : outcome (A * fs)) : Prop :=
  match o with
  | Done r => osErrno r.2 = Some E_BAD_FD
  | Crash _ => False
  end.

(** [osErrno] does not hold [E_BAD_FD]. *)
Definition spares_bad_fd (st : fs) : Prop := osErrno st <> Some E_BAD_FD.

(** The call returned, and its result satisfies [P]. *)
Definition ends_with {A : Type} (o : outcome A) (P : A -> Prop) : Prop :=
  match o with
  | Done a => P a
  | Crash _ => False
  end.

(** The read is carried out on slot [fd] of the open-file table: at the
    end of the file the slot records it returns 0; otherwise the bytes come
    from the inode and the position the slot records, and the position of
    that slot moves on; and [osErrno] comes back as [E_BAD_FD] only if it
    held that value before the call. *)
Definition reads_slot `{G : Geometry} (st : fs) (fd n : Z) : Prop :=
  let f := slot st fd in
  let cpis := Z.rem (pos f) SECTOR_SIZE in
  let to_read := chunk n cpis in
  (pos f = size f -> File_Read st fd n = Done (0, [], st)) /\
  (forall (inode_buffer data_buf : buffer) (child : Z),
     0 < SECTOR_SIZE ->
     0 < n ->
     0 <= pos f < size f ->
     pos f ÷ SECTOR_SIZE < MAX_SECTORS_PER_FILE ->
     0 <= to_read ->
     Disk_Read (the_disk st) (inode_sector_of (inode f))
     = Some inode_buffer ->
     inode_ptr (inode_sector_of (inode f)) (inode f) = Done child ->
     Disk_Read (the_disk st)
               (inode_data inode_buffer child (pos f ÷ SECTOR_SIZE))
     = Some data_buf ->
     File_Read st fd n
     = Done (to_read, slice data_buf cpis to_read,
             set_slot st fd
               {| inode := inode f; size := size f;
                  pos := if size f <? pos f + to_read then size f
                         else pos f + to_read |})) /\
  (bad_fd (File_Read st fd n) -> osErrno st = Some E_BAD_FD).

(** The write is carried out on slot [fd] of the open-file table: the
    size limit is tested on the position the slot records; otherwise the
    sectors are allocated for and the bytes written through the inode of
    the slot, from its position, and the slot gets the new size and
    position; and [osErrno] comes back as [E_BAD_FD] only if it held that
    value before the call. *)
Definition writes_slot `{G : Geometry} (st : fs) (fd : Z) (data : list Z) (n : Z) : Prop :=
  let f := slot st fd in
  let inode_sector := inode_sector_of (inode f) in
  let allocated_sectors := (size f + SECTOR_SIZE - 1) ÷ SECTOR_SIZE in
  let needed_sectors :=
    (n - (allocated_sectors * SECTOR_SIZE - pos f) + SECTOR_SIZE - 1)
    ÷ SECTOR_SIZE in
  (in_int (pos f + n) = true ->
   MAX_SECTORS_PER_FILE * SECTOR_SIZE < pos f + n ->
   File_Write st fd data n = Done (-1, set_errno E_FILE_TOO_BIG st)) /\
  (forall (inode_buffer grown : buffer) (child left_ new_pos : Z)
          (st1 : fs) (d : disk),
     in_int (pos f + n) = true ->
     pos f + n <= MAX_SECTORS_PER_FILE * SECTOR_SIZE ->
     Disk_Read (the_disk st) inode_sector = Some inode_buffer ->
     inode_ptr inode_sector (inode f) = Done child ->
     allocate_sectors st inode_buffer child
                      (seqZ allocated_sectors needed_sectors)
     = Done (st1, Some grown) ->
     write_sectors (Disk_Write_unchecked (the_disk st1) inode_sector grown)
                   grown child data
                   (seqZ (pos f ÷ SECTOR_SIZE)
                         (allocated_sectors + needed_sectors
                          - pos f ÷ SECTOR_SIZE))
                   n (Z.rem (pos f) SECTOR_SIZE) (pos f) 0
     = Done (d, left_, new_pos) ->
     File_Write st fd data n
     = Done (n - left_,
             set_slot (set_disk d st1) fd
               {| inode := inode f; size := pos f + n; pos := new_pos |})) /\
  (bad_fd (File_Write st fd data n) -> osErrno st = Some E_BAD_FD).

(** ** Scenarios on the standard geometry *)

Section Scenarios.
#[local] Existing Instance std_geometry.

(** The globals of a process that has not booted yet. *)
Definition before_boot : fs :=
  {| the_disk := []; open_files := zero_open_files; osErrno := None |}.

(** The state a call leaves behind. *)
Definition state_of {A : Type} (o : outcome (A * fs)) : fs :=
  match o with
  | Done r => r.2
  | Crash _ => before_boot
  end.

(** [FS_Boot] on a backing file that does not exist yet. *)
Definition fresh : fs := (FS_Boot before_boot true Load_cannot_open true).2.

(** Root holds the files [a] (inode 1) and [x] (inode 2). *)
Definition with_a : fs := state_of (File_Create fresh "/a").
Definition with_a_x : fs := state_of (File_Create with_a "/x").
Definition a_unlinked : fs := state_of (File_Unlink with_a_x "/a").
Definition x_unlinked : fs := state_of (File_Unlink with_a_x "/x").

(** Descriptor 0 is [/a], descriptor 1 is [/x]; then 0 is closed. *)
Definition a_open : fs := state_of (File_Open with_a_x "/a").
Definition both_open : fs := state_of (File_Open a_open "/x").
Definition only_x_open : fs := state_of (File_Close both_open 0).

(** [HELLO] written to [/a], and the position brought back to 0. *)
Definition hello : list Z := c_bytes "HELLO".
Definition a_written : fs := state_of (File_Write a_open 0 hello 5).
Definition a_rewound : fs := state_of (File_Seek a_written 0 0).

(** 124 more files: with the root directory, 125 inodes are live. *)
Definition letter (k : Z) : ascii := ascii_of_N (Z.to_N (97 + k)).
Definition numbered_path (k : Z) : string :=
  String "/" (String (letter (k / 26)) (String (letter (k mod 26)) EmptyString)).
Definition create_numbered (st : fs) (ks : list Z) : fs :=
  foldl (fun st k => state_of (File_Create st (numbered_path k))) st ks.
Definition crowded : fs := create_numbered fresh (seqZ 0 124).

(** The root inode and the slots of its first data sector. *)
Definition root_size (st : fs) : option Z :=
  (fun b => inode_size b 0) <$> Disk_Read (the_disk st) INODE_TABLE_START_SECTOR.
Definition root_sector (st : fs) : option buffer :=
  b ← Disk_Read (the_disk st) INODE_TABLE_START_SECTOR;
  Disk_Read (the_disk st) (inode_data b 0 0).
Definition root_slot (st : fs) (i : Z) : option (list Z) :=
  (fun b => slice b (i * sizeof_dirent_t) sizeof_dirent_t) <$> root_sector st.

(** A directory entry as it lies on disk. *)
Definition dirent_bytes (name : string) (inode_ : Z) : list Z :=
  strncpy (c_bytes name) MAX_NAME ++ int_bytes inode_.

(** The inode cache as [follow_path] sets it up. *)
Definition root_cache (st : fs) : inode_cache :=
  (INODE_TABLE_START_SECTOR,
   default [] (Disk_Read (the_disk st) INODE_TABLE_START_SECTOR)).

End Scenarios.

(** The sector with bit [k] cleared, as [bitmap_reset] clears it. *)
Definition unmark (buf : buffer) (k : Z) : buffer :=
  poke buf (k / 8) (Z.land (peek buf (k / 8)) (reset_mask (k mod 8))).

(** The first [nbits] bits of a bitmap sector are all set. *)
Definition prefix_full (buf : buffer) (nbits : Z) : Prop :=
  forall k, 0 <= k < nbits -> bit_at buf k = true.


(** ** Paths as [follow_path] sees them *)

(** The tokens of an absolute path whose bytes after the leading slash are
    [rest]: the pieces between the slashes of the first [MAX_PATH - 1]
    bytes; and its components, the tokens that are not empty. *)
Definition path_tokens (rest : list Z) : list (list Z) :=
  strsep_tokens (take (Z.to_nat (MAX_PATH - 1)) rest) [].
Definition components (rest : list Z) : list (list Z) :=
  filter (fun t => t <> []) (path_tokens rest).

(** The answer is a crash or the given result. *)
Definition crash_or {A : Type} (o : outcome A) (a : A) : Prop :=
  (exists f, o = Crash f) \/ o = Done a.

(** ** Scenarios on a small geometry

    64-byte sectors, 512 sectors, 64 files, 2 sectors per file: four inodes
    and three directory entries to a sector, data blocks from sector 19. *)

Definition small_geometry : Geometry := {|
  SECTOR_SIZE := 64;
  TOTAL_SECTORS := 512;
  MAX_FILES := 64;
  MAX_SECTORS_PER_FILE := 2
|}.

Section SmallScenarios.
#[local] Existing Instance small_geometry.

(** A table whose 256 slots are all in use, over no disk at all. *)
Definition busy_table : fs :=
  {| the_disk := [];
     open_files := replicate 256 {| inode := 7; size := 10; pos := 3 |};
     osErrno := None |}.

(** A table whose slot 2 alone is in use. *)
Definition one_open : fs :=
  {| the_disk := [];
     open_files := <[2%nat := {| inode := 7; size := 10; pos := 3 |}]>
                     (replicate 256 closed_file);
     osErrno := None |}.

(** A fresh image with a directory [/d], a file [/d/f] and a file [/g]
    (inodes 1, 2 and 3), and then [/g] opened as descriptor 0. *)
Definition tiny_fresh : fs :=
  (FS_Boot {| the_disk := []; open_files := []; osErrno := None |}
           true Load_cannot_open true).2.
Definition tiny_after {A : Type} (o : outcome (A * fs)) : fs :=
  match o with
  | Done r => r.2
  | Crash _ => tiny_fresh
  end.
Definition tiny_d : fs := tiny_after (Dir_Create tiny_fresh "/d").
Definition tiny_df : fs := tiny_after (File_Create tiny_d "/d/f").
Definition tiny_tree : fs := tiny_after (File_Create tiny_df "/g").
Definition tiny_open : fs := tiny_after (File_Open tiny_tree "/g").

(** Two bytes written to [/g] through descriptor 0, and the position then
    moved back to the start of the file. *)
Definition tiny_written : fs :=
  tiny_after (File_Write tiny_open 0 [104; 105] 2).
Definition tiny_rewound : fs := tiny_after (File_Seek tiny_written 0 0).

(** [/d/f] opened as descriptor 1 (inode 2), and descriptor 0 then closed:
    its slot keeps the size 2 and names inode 0. *)
Definition tiny_two : fs := tiny_after (File_Open tiny_rewound "/d/f").
Definition tiny_one_closed : fs := tiny_after (File_Close tiny_two 0).

(** The full table with slot 2 closed again. *)
Definition nearly_full : fs := set_slot busy_table 2 closed_file.

(** A disk of two bitmap sectors: the first with every bit set, the second
    with its first eight bits set and the ninth clear; and one with both
    sectors full. *)
Definition two_bitmaps : fs :=
  {| the_disk := [replicate 64 255; 255 :: 127 :: replicate 62 0];
     open_files := []; osErrno := None |}.
Definition full_bitmaps : fs :=
  {| the_disk := [replicate 64 255; replicate 64 255];
     open_files := []; osErrno := None |}.

End SmallScenarios.

(** * Properties that hold for every geometry *)

Section Generic.
Context `{G : Geometry}.

Lemma is_file_open_iff (st : fs) (x : Z) :
  is_file_open st x = true <-> names_inode st x.
Proof.
  unfold is_file_open, names_inode. rewrite existsb_exists. split.
  - intros (i & Hin & Heq). exists i. split; [| lia].
    apply list_elem_of_In, elem_of_seqZ in Hin. lia.
  - intros (i & Hi & Heq). exists i. split; [| lia].
    apply list_elem_of_In, elem_of_seqZ. lia.
Qed.

Lemma is_file_open_false (st : fs) (x : Z) :
  is_file_open st x = false <-> ~ names_inode st x.
Proof.
  rewrite <- is_file_open_iff. destruct (is_file_open st x); split; congruence.
Qed.

(** The [while] loop of [bitmap_reset] has left by the time its turns are
    used up: the byte index is then at most [SECTOR_SIZE]. *)
Lemma reset_wind_leaves (turns : nat) :
  forall number_bytes,
    0 < SECTOR_SIZE ->
    number_bytes <= Z.of_nat turns ->
    reset_wind turns number_bytes <= SECTOR_SIZE.
Proof.
  induction turns as [| turns IH]; intros number_bytes Hpos Hle; simpl.
  - lia.
  - destruct (Z.ltb_spec SECTOR_SIZE number_bytes); [| lia].
    apply IH; lia.
Qed.

(** ** The bitmap scan inside one sector *)

Lemma scan_bits_all_set (buf : buffer) (a_byte : Z) (n : nat) :
  forall b loc,
    (forall j, b <= j < b + Z.of_nat n ->
               isBitSet (peek buf a_byte) j = true) ->
    scan_bits buf a_byte (seqZ b (Z.of_nat n)) loc = inr (loc + Z.of_nat n).
Proof.
  induction n as [| n IH]; intros b loc Hset.
  - simpl. f_equal. lia.
  - rewrite Nat2Z.inj_succ, seqZ_cons by lia. simpl.
    rewrite Hset by lia. rewrite Z.pred_succ, IH.
    + f_equal. lia.
    + intros j Hj. apply Hset. lia.
Qed.

Lemma scan_bits_first_clear (buf : buffer) (a_byte : Z) (n : nat) :
  forall b loc j,
    b <= j < b + Z.of_nat n ->
    isBitSet (peek buf a_byte) j = false ->
    (forall i, b <= i < j -> isBitSet (peek buf a_byte) i = true) ->
    scan_bits buf a_byte (seqZ b (Z.of_nat n)) loc
    = inl (poke buf a_byte (setBit (peek buf a_byte) j), loc + (j - b) + 1).
Proof.
  induction n as [| n IH]; intros b loc j Hj Hclear Hset; [lia |].
  rewrite Nat2Z.inj_succ, seqZ_cons by lia. simpl.
  destruct (decide (j = b)) as [-> | Hne].
  - rewrite Hclear. do 2 f_equal. lia.
  - rewrite Hset by lia. rewrite Z.pred_succ, (IH _ _ j); try lia; try done.
    + do 2 f_equal. lia.
    + intros i Hi. apply Hset. lia.
Qed.

Lemma bit_at_in_byte (buf : buffer) (a j : Z) :
  0 <= j < 8 ->
  bit_at buf (8 * a + j) = isBitSet (peek buf a) j.
Proof.
  intros Hj. unfold bit_at.
  replace ((8 * a + j) / 8) with a by (apply Z.div_unique with j; lia).
  replace ((8 * a + j) mod 8) with j
    by (apply Z.mod_unique with a; lia).
  reflexivity.
Qed.

Lemma scan_bytes_all_set (buf : buffer) (n : nat) :
  forall a loc,
    (forall k, 8 * a <= k < 8 * (a + Z.of_nat n) -> bit_at buf k = true) ->
    scan_bytes buf (seqZ a (Z.of_nat n)) loc = inr (loc + 8 * Z.of_nat n).
Proof.
  induction n as [| n IH]; intros a loc Hset.
  - simpl. f_equal. lia.
  - rewrite Nat2Z.inj_succ, seqZ_cons by lia. cbn [scan_bytes].
    change (seqZ 0 8) with (seqZ 0 (Z.of_nat 8)).
    rewrite (scan_bits_all_set buf a 8 0 loc).
    + rewrite Z.pred_succ, IH.
      * f_equal. lia.
      * intros k Hk. apply Hset. lia.
    + intros j Hj. rewrite <- bit_at_in_byte by lia. apply Hset. lia.
Qed.

Lemma scan_bytes_first_clear (buf : buffer) (n : nat) :
  forall a loc k,
    8 * a <= k < 8 * (a + Z.of_nat n) ->
    bit_at buf k = false ->
    (forall i, 8 * a <= i < k -> bit_at buf i = true) ->
    scan_bytes buf (seqZ a (Z.of_nat n)) loc
    = inl (mark buf k, loc + (k - 8 * a) + 1).
Proof.
  induction n as [| n IH]; intros a loc k Hk Hclear Hset; [lia |].
  rewrite Nat2Z.inj_succ, seqZ_cons by lia. cbn [scan_bytes].
  change (seqZ 0 8) with (seqZ 0 (Z.of_nat 8)).
  destruct (Z.lt_ge_cases k (8 * a + 8)) as [Hin | Hout].
  - (* the clear bit lies in this byte *)
    assert (Hk8 : k = 8 * a + (k - 8 * a)) by lia.
    rewrite (scan_bits_first_clear buf a 8 0 loc (k - 8 * a)).
    + unfold mark.
      replace (k / 8) with a by (apply Z.div_unique with (k - 8 * a); lia).
      replace (k mod 8) with (k - 8 * a)
        by (apply Z.mod_unique with a; lia).
      do 2 f_equal. lia.
    + lia.
    + rewrite <- bit_at_in_byte by lia. now rewrite <- Hk8.
    + intros i Hi. rewrite <- bit_at_in_byte by lia. apply Hset. lia.
  - rewrite (scan_bits_all_set buf a 8 0 loc).
    + rewrite Z.pred_succ, (IH _ _ k); try lia; try done.
      * do 2 f_equal. lia.
      * intros i Hi. apply Hset. lia.
    + intros j Hj. rewrite <- bit_at_in_byte by lia. apply Hset. lia.
Qed.

Lemma Disk_Write_after_read (d : disk) (sector : Z) (old new : buffer) :
  Disk_Read d sector = Some old ->
  Disk_Write d sector new = Some (<[Z.to_nat sector := new]> d).
Proof.
  unfold Disk_Read, Disk_Write. intros Hread.
  destruct ((0 <=? sector) && (sector <? TOTAL_SECTORS)) eqn:Hrange;
    [| discriminate].
  apply lookup_lt_Some in Hread. simpl.
  destruct (Z.ltb_spec sector (Z.of_nat (length d))); [reflexivity | lia].
Qed.

(** On a bitmap of one sector whose [nbits / 8] bytes fit in the sector,
    [bitmap_first_unused] returns -1 when the first [nbits] bits are all
    set, and otherwise sets the first clear bit among them, writes the
    sector back and returns the index of that bit. *)
Lemma bitmap_first_unused_full (st : fs) (start nbits : Z) (buf : buffer) :
  0 <= nbits ->
  nbits / 8 < SECTOR_SIZE ->
  Disk_Read (the_disk st) start = Some buf ->
  (forall k, 0 <= k < nbits -> bit_at buf k = true) ->
  bitmap_first_unused st start 1 nbits = (-1, st).
Proof.
  intros Hn Hfit Hread Hset. unfold bitmap_first_unused.
  rewrite Z.quot_div_nonneg, Z.rem_mod_nonneg by lia.
  change (seqZ start 1) with [start]. simpl. rewrite Hread.
  destruct (Z.ltb_spec (nbits / 8) SECTOR_SIZE); [| lia].
  pose proof (Z.div_pos nbits 8 Hn ltac:(lia)) as Hq.
  pose proof (Z.mod_pos_bound nbits 8 ltac:(lia)) as Hr.
  pose proof (Z.div_mod nbits 8 ltac:(lia)) as Hdm.
  rewrite <- (Z2Nat.id (nbits / 8)) at 1 by lia.
  rewrite scan_bytes_all_set.
  - rewrite Z.max_r by lia.
    rewrite <- (Z2Nat.id (nbits mod 8)) at 1 by lia.
    rewrite scan_bits_all_set; [reflexivity |].
    intros j Hj. rewrite <- bit_at_in_byte by lia. apply Hset. lia.
  - intros k Hk. apply Hset. lia.
Qed.

Lemma bitmap_first_unused_first_clear
    (st : fs) (start nbits k : Z) (buf : buffer) :
  0 <= k < nbits ->
  nbits / 8 < SECTOR_SIZE ->
  Disk_Read (the_disk st) start = Some buf ->
  bit_at buf k = false ->
  (forall i, 0 <= i < k -> bit_at buf i = true) ->
  bitmap_first_unused st start 1 nbits
  = (k, set_disk (<[Z.to_nat start := mark buf k]> (the_disk st)) st).
Proof.
  intros Hk Hfit Hread Hclear Hset. unfold bitmap_first_unused.
  rewrite Z.quot_div_nonneg, Z.rem_mod_nonneg by lia.
  change (seqZ start 1) with [start]. simpl. rewrite Hread.
  destruct (Z.ltb_spec (nbits / 8) SECTOR_SIZE); [| lia].
  pose proof (Z.div_pos nbits 8 ltac:(lia) ltac:(lia)) as Hq.
  pose proof (Z.mod_pos_bound nbits 8 ltac:(lia)) as Hr.
  pose proof (Z.div_mod nbits 8 ltac:(lia)) as Hdm.
  unfold bitmap_commit.
  destruct (Z.lt_ge_cases k (8 * (nbits / 8))) as [Hin | Hout].
  - rewrite <- (Z2Nat.id (nbits / 8)) at 1 by lia.
    rewrite (scan_bytes_first_clear buf _ 0 (-1) k); try lia; try done.
    simpl. rewrite (Disk_Write_after_read _ _ buf) by done.
    f_equal. lia.
  - rewrite <- (Z2Nat.id (nbits / 8)) at 1 by lia.
    rewrite scan_bytes_all_set by (intros i Hi; apply Hset; lia).
    rewrite Z.max_r by lia.
    rewrite <- (Z2Nat.id (nbits mod 8)) at 1 by lia.
    assert (Hmark : poke buf (nbits / 8)
                      (setBit (peek buf (nbits / 8)) (k - 8 * (nbits / 8)))
                    = mark buf k).
    { unfold mark.
      replace (k / 8) with (nbits / 8)
        by (apply Z.div_unique with (k - 8 * (nbits / 8)); lia).
      replace (k mod 8) with (k - 8 * (nbits / 8))
        by (apply Z.mod_unique with (nbits / 8); lia).
      reflexivity. }
    rewrite (scan_bits_first_clear buf _ _ 0 _ (k - 8 * (nbits / 8))).
    + simpl. rewrite Hmark, (Disk_Write_after_read _ _ buf) by done.
      f_equal. lia.
    + lia.
    + rewrite <- bit_at_in_byte by lia.
      now replace (8 * (nbits / 8) + (k - 8 * (nbits / 8))) with k by lia.
    + intros i Hi. rewrite <- bit_at_in_byte by lia. apply Hset. lia.
Qed.

(** What [add_inode] asks of the inode bitmap: the first clear bit among
    the first [INODE_BITMAP_SIZE] bits, a count of bytes, not [MAX_FILES]. *)
Lemma add_inode_scans_byte_count (st : fs) (buf : buffer) :
  0 <= MAX_FILES ->
  INODE_BITMAP_SIZE / 8 < SECTOR_SIZE ->
  INODE_BITMAP_SECTORS = 1 ->
  Disk_Read (the_disk st) INODE_BITMAP_START_SECTOR = Some buf ->
  (forall k, 0 <= k < INODE_BITMAP_SIZE -> bit_at buf k = true) ->
  bitmap_first_unused st INODE_BITMAP_START_SECTOR INODE_BITMAP_SECTORS
                      INODE_BITMAP_SIZE = (-1, st).
Proof.
  intros Hfiles Hfit Hone Hread Hset. rewrite Hone.
  apply bitmap_first_unused_full with buf; try done.
  unfold INODE_BITMAP_SIZE. apply Z.quot_pos; lia.
Qed.

(** No step of the bitmap engine records [E_BAD_FD]. *)
Lemma bitmap_commit_spares st i found :
  spares_bad_fd st -> spares_bad_fd (bitmap_commit st i found).2.
Proof.
  unfold bitmap_commit, spares_bad_fd.
  destruct (Disk_Write _ _ _); simpl; congruence.
Qed.

Lemma bitmap_scan_sectors_spares sectors : forall st b r last loc,
  spares_bad_fd st ->
  spares_bad_fd (bitmap_scan_sectors st sectors b r last loc).2.
Proof.
  induction sectors as [| i rest IH]; intros st b r last loc Hst; simpl.
  - exact Hst.
  - destruct (Disk_Read _ _); [| unfold spares_bad_fd; simpl; congruence].
    destruct (scan_bytes _ _ _); [now apply bitmap_commit_spares |].
    destruct (if b <? SECTOR_SIZE then true else last); [| now apply IH].
    destruct (scan_bits _ _ _ _); [now apply bitmap_commit_spares |].
    now apply IH.
Qed.

Lemma bitmap_first_unused_spares st start num nbits :
  spares_bad_fd st ->
  spares_bad_fd (bitmap_first_unused st start num nbits).2.
Proof. apply bitmap_scan_sectors_spares. Qed.

Lemma allocate_sectors_spares idxs : forall st buf child st' grown,
  spares_bad_fd st ->
  allocate_sectors st buf child idxs = Done (st', grown) ->
  spares_bad_fd st'.
Proof.
  induction idxs as [| i rest IH]; intros st buf child st' grown Hst; simpl.
  - intros [= <- _]. exact Hst.
  - pose proof (bitmap_first_unused_spares st SECTOR_BITMAP_START_SECTOR
                  SECTOR_BITMAP_SECTORS SECTOR_BITMAP_SIZE Hst) as Hnext.
    destruct (bitmap_first_unused _ _ _ _) as [next st1]. simpl in Hnext.
    destruct (next <? 0).
    + intros [= <- _]. unfold spares_bad_fd. simpl. congruence.
    + destruct (in_data i); simpl; [| discriminate]. now apply IH.
Qed.

Lemma File_Read_passes st fd n :
  spares_bad_fd st -> is_file_open st fd = true ->
  ~ bad_fd (File_Read st fd n).
Proof.
  unfold spares_bad_fd, File_Read. intros Hst ->. simpl.
  unfold mbind, outcome_bind, guard, bad_fd.
  repeat (case_match; simplify_eq; simpl in *; try congruence; try tauto).
Qed.

Lemma File_Write_passes st fd data n :
  spares_bad_fd st -> is_file_open st fd = true ->
  ~ bad_fd (File_Write st fd data n).
Proof.
  unfold File_Write. intros Hst ->. simpl.
  unfold mbind, outcome_bind, guard, bad_fd.
  destruct (in_table fd); [| tauto].
  destruct (in_int _); [| tauto].
  destruct (_ <? _); [simpl; congruence |].
  destruct (Disk_Read _ _); [| simpl; congruence].
  destruct (inode_ptr _ _) as [child |]; [| tauto].
  destruct (allocate_sectors _ _ _ _) as [[st' grown] |] eqn:Halloc; [| tauto].
  apply allocate_sectors_spares in Halloc; [| exact Hst].
  destruct grown; [| exact Halloc].
  destruct (write_sectors _ _ _ _ _ _ _ _ _) as [[[d left_] new_pos] |];
    [| tauto].
  exact Halloc.
Qed.

(** C6: when the path resolves to an inode that some entry of the
    open-file table references, [File_Unlink] returns -1 with [osErrno] set
    to [E_FILE_IN_USE], and neither the disk (inode table, data sectors,
    both bitmaps, parent directory) nor the open-file table changes. *)
Theorem File_Unlink_open_file
    (st : fs) (file : string) (r : path_result) (child : Z) :
  follow_path (the_disk st) file = Done r ->
  0 <= fp_ret r ->
  fp_last_inode r = Some child ->
  0 <= child ->
  names_inode st child ->
  exists st',
    File_Unlink st file = Done (-1, st') /\
    osErrno st' = Some E_FILE_IN_USE /\
    the_disk st' = the_disk st /\
    open_files st' = open_files st.
Proof.
  intros Hpath Hparent Hlast Hchild Hopen.
  exists (set_errno E_FILE_IN_USE st). repeat split.
  unfold File_Unlink. rewrite Hpath. simpl. rewrite Hlast.
  apply is_file_open_iff in Hopen. rewrite Hopen.
  destruct (Z.leb_spec 0 (fp_ret r)); [| lia].
  destruct (Z.leb_spec 0 child); [| lia].
  reflexivity.
Qed.

(** Once the descriptor check of [File_Write] lets the call through, a
    write that would end beyond [MAX_SECTORS_PER_FILE * SECTOR_SIZE] is
    refused and only [osErrno] changes. *)
Lemma File_Write_too_big (st : fs) (fd n : Z) (data : list Z) :
  is_file_open st fd = true ->
  in_table fd = true ->
  in_int (pos (slot st fd) + n) = true ->
  MAX_SECTORS_PER_FILE * SECTOR_SIZE < pos (slot st fd) + n ->
  File_Write st fd data n = Done (-1, set_errno E_FILE_TOO_BIG st).
Proof.
  intros Hopen Hfd Hint Hbig. unfold File_Write.
  rewrite Hopen, Hfd, Hint. simpl.
  destruct (Z.ltb_spec (MAX_SECTORS_PER_FILE * SECTOR_SIZE)
                       (pos (slot st fd) + n)); [reflexivity | lia].
Qed.

(** [Dir_Unlink] refuses the root directory. *)
Lemma Dir_Unlink_root (st : fs) :
  Dir_Unlink st "/" = Done (-1, set_errno E_ROOT_DIR st).
Proof.
  unfold Dir_Unlink, follow_path. simpl.
  destruct (Disk_Read _ _); reflexivity.
Qed.

(** A negative offset passes the bounds test of [File_Seek]. *)
Lemma File_Seek_below_zero (st : fs) (fd offset : Z) :
  in_table fd = true ->
  0 <= size (slot st fd) ->
  offset < 0 ->
  File_Seek st fd offset =
    Done (offset,
          set_slot st fd {| inode := inode (slot st fd);
                            size := size (slot st fd); pos := offset |}).
Proof.
  intros Hfd Hsize Hoff. unfold File_Seek. rewrite Hfd. simpl.
  assert (Hopen : is_file_open st (inode (slot st fd)) = true).
  { apply is_file_open_iff. exists fd. split; [| reflexivity].
    unfold in_table in Hfd. lia. }
  rewrite Hopen. simpl.
  destruct (Z.ltb_spec (size (slot st fd)) offset); [lia |].
  destruct (Z.ltb_spec (size (slot st fd)) 0); [lia |]. reflexivity.
Qed.

(** Inside the bounds [File_Seek] moves the position and returns it;
    beyond the size it refuses. *)
Lemma File_Seek_within_bounds (st : fs) (fd offset : Z) :
  in_table fd = true ->
  0 <= offset <= size (slot st fd) ->
  File_Seek st fd offset =
    Done (offset,
          set_slot st fd {| inode := inode (slot st fd);
                            size := size (slot st fd); pos := offset |}).
Proof.
  intros Hfd Hoff. unfold File_Seek. rewrite Hfd. simpl.
  assert (Hopen : is_file_open st (inode (slot st fd)) = true).
  { apply is_file_open_iff. exists fd. split; [| reflexivity].
    unfold in_table in Hfd. lia. }
  rewrite Hopen. simpl.
  destruct (Z.ltb_spec (size (slot st fd)) offset); [lia |].
  destruct (Z.ltb_spec (size (slot st fd)) 0); [lia |]. reflexivity.
Qed.

Lemma File_Seek_beyond_size (st : fs) (fd offset : Z) :
  in_table fd = true ->
  size (slot st fd) < offset ->
  File_Seek st fd offset = Done (-1, set_errno E_SEEK_OUT_OF_BOUNDS st).
Proof.
  intros Hfd Hoff. unfold File_Seek. rewrite Hfd. simpl.
  assert (Hopen : is_file_open st (inode (slot st fd)) = true).
  { apply is_file_open_iff. exists fd. split; [| reflexivity].
    unfold in_table in Hfd. lia. }
  rewrite Hopen. simpl.
  destruct (Z.ltb_spec (size (slot st fd)) offset); [reflexivity | lia].
Qed.

(** At the end of the file [File_Read] returns 0 and changes nothing. *)
Lemma File_Read_at_end_of_file (st : fs) (fd n : Z) :
  is_file_open st fd = true ->
  in_table fd = true ->
  pos (slot st fd) = size (slot st fd) ->
  File_Read st fd n = Done (0, [], st).
Proof.
  intros Hopen Hfd Heof. unfold File_Read. rewrite Hopen, Hfd. simpl.
  rewrite Heof, Z.eqb_refl. reflexivity.
Qed.

(** When the parent of the path resolves and the path is not [/],
    [Dir_Unlink] never reports [E_NO_SUCH_DIR]: it succeeds, or it reports
    every failure of [remove_inode] as [E_DIR_NOT_EMPTY]. *)
Lemma Dir_Unlink_resolved_parent
    (st : fs) (path : string) (r : path_result) (child ret : Z) (st' : fs) :
  follow_path (the_disk st) path = Done r ->
  0 <= fp_ret r ->
  fp_last_inode r = Some child ->
  strcmp_eq (c_bytes path ++ [0]) [47] = false ->
  Dir_Unlink st path = Done (ret, st') ->
  ret = 0 \/ (ret = -1 /\ osErrno st' = Some E_DIR_NOT_EMPTY).
Proof.
  intros Hpath Hparent Hlast Hroot. unfold Dir_Unlink.
  rewrite Hpath. simpl. rewrite Hroot, Hlast.
  destruct (Z.ltb_spec (fp_ret r) 0); [lia |].
  destruct (remove_inode st 1 (fp_ret r) child) as [[res st1] |]; simpl;
    [| discriminate].
  destruct (res <? 0); intros [= <- <-]; [right | left]; auto.
Qed.

(** Initialising a bitmap of [num] sectors with one leading bit writes
    [num + 1] sectors: the last write lands on the sector after the
    bitmap. *)
Lemma bitmap_init_one_bit_overruns (start num : Z) :
  0 < num ->
  In (start + num) (map fst (bitmap_init_writes start num 1)).
Proof.
  intros Hnum. unfold bitmap_init_writes.
  change (1 ÷ 8) with 0.
  change (0 ÷ SECTOR_SIZE) with 0. change (Z.rem 0 SECTOR_SIZE) with 0.
  change (signum 0) with 0.
  rewrite map_app. apply in_or_app. right. simpl. right.
  rewrite map_map. simpl. rewrite map_id.
  apply list_elem_of_In, elem_of_seqZ. lia.
Qed.

End Generic.

(** * The code on the standard geometry

    512-byte sectors, 10000 sectors, 1000 files, 30 sectors per file. *)

Section Standard.
#[local] Existing Instance std_geometry.

#[local] Ltac by_running := vm_compute; repeat split; reflexivity.

(** Scenario B of the specification: after writing [HELLO] and seeking
    back to 0, a read of 5 bytes returns them and leaves the position at 5. *)
Example hello_round_trip :
  ends_with (File_Read a_rewound 0 5)
    (fun '(ret, copied, st') =>
       ret = 5 /\ copied = hello /\ pos (slot st' 0) = 5).
Proof. by_running. Qed.

(** C1 does not hold of [File_Read].  Descriptor 0 is open on a 5-byte
    file with the position at 0.  A read of 100 bytes returns 100
    and copies 100 bytes of the data sector, 95 of them from beyond the end
    of the file, while the position moves by 5 only: the result is neither
    bounded by [min(n, size - pos)] nor equal to the advance of [pos]. *)
Theorem File_Read_beyond_end_of_file :
  slot a_rewound 0 = {| inode := 1; size := 5; pos := 0 |} /\
  ends_with (File_Read a_rewound 0 100)
    (fun '(ret, copied, st') =>
       ret = 100 /\ length copied = 100%nat /\ take 5 copied = hello /\
       slot st' 0 = {| inode := 1; size := 5; pos := 5 |}).
Proof. by_running. Qed.

(** C2 does not hold of [File_Seek].  Descriptor 0 is open on a 5-byte
    file; seeking to offset -1 is not refused: the call stores -1 in
    [pos], returns it, and leaves [osErrno] as it was. *)
Theorem File_Seek_negative_offset :
  slot a_rewound 0 = {| inode := 1; size := 5; pos := 0 |} /\
  osErrno a_rewound = None /\
  ends_with (File_Seek a_rewound 0 (-1))
    (fun '(ret, st') =>
       ret = -1 /\ slot st' 0 = {| inode := 1; size := 5; pos := -1 |} /\
       osErrno st' = None).
Proof. by_running. Qed.

(** C3 does not hold of [remove_inode].  The root directory holds
    [a] (inode 1) in slot 0 and [x] (inode 2) in slot 1.  Removing inode 1
    succeeds, moves the last entry into slot 0 and makes the size 1, but
    the vacated slot 1 still holds the entry of [x] on disk: it is not
    zeroed. *)
Theorem remove_inode_keeps_last_slot :
  root_size with_a_x = Some 2 /\
  root_slot with_a_x 0 = Some (dirent_bytes "a" 1) /\
  root_slot with_a_x 1 = Some (dirent_bytes "x" 2) /\
  ends_with (remove_inode with_a_x 0 0 1)
    (fun '(ret, st') =>
       ret = 0 /\ root_size st' = Some 1 /\
       root_slot st' 0 = Some (dirent_bytes "x" 2) /\
       root_slot st' 1 = Some (dirent_bytes "x" 2)).
Proof. by_running. Qed.

(** C4 does not hold of [bitmap_first_unused].  With 125 live inodes
    the inode bitmap has bits 0 to 124 set and all others clear, and 125
    is below [MAX_FILES]; yet the call [add_inode] makes returns -1, and
    creating one more file fails with [E_CREATE]. *)
Theorem bitmap_first_unused_stops_at_byte_count :
  INODE_BITMAP_SIZE = 125 /\ MAX_FILES = 1000 /\
  Disk_Read (the_disk crowded) INODE_BITMAP_START_SECTOR
    = Some (replicate 15 0xFF ++ 0xF8 :: replicate 496 0) /\
  bitmap_bit (the_disk crowded) INODE_BITMAP_START_SECTOR 125 = false /\
  (bitmap_first_unused crowded INODE_BITMAP_START_SECTOR INODE_BITMAP_SECTORS
                       INODE_BITMAP_SIZE).1 = -1 /\
  ends_with (File_Create crowded "/one-more")
    (fun '(ret, st') => ret = -1 /\ osErrno st' = Some E_CREATE).
Proof. by_running. Qed.

(** C5 holds of [Dir_Unlink] for [/], which is refused with
    [E_ROOT_DIR], and not for a missing last component: on a fresh image
    [/nope] resolves to the root as parent with no child, and the call
    fails with [E_DIR_NOT_EMPTY] instead of [E_NO_SUCH_DIR]. *)
Theorem Dir_Unlink_missing_child :
  (forall st, Dir_Unlink st "/" = Done (-1, set_errno E_ROOT_DIR st)) /\
  ends_with (follow_path (the_disk fresh) "/nope")
    (fun r => fp_ret r = 0 /\ fp_last_inode r = Some (-1)) /\
  ends_with (Dir_Unlink fresh "/nope")
    (fun '(ret, st') => ret = -1 /\ osErrno st' = Some E_DIR_NOT_EMPTY).
Proof. split; [apply Dir_Unlink_root | by_running]. Qed.

(** C7 does not hold of [File_Write].  Descriptor 1 is open on
    inode 2 with the position at 0 and no entry of the table names inode 1.
    A write of 15361 bytes, one more than [MAX_SECTORS_PER_FILE *
    SECTOR_SIZE], fails with [E_BAD_FD], not with [E_FILE_TOO_BIG]. *)
Theorem File_Write_too_big_rejected_as_bad_fd :
  slot only_x_open 1 = {| inode := 2; size := 0; pos := 0 |} /\
  MAX_SECTORS_PER_FILE * SECTOR_SIZE = 15360 /\
  ends_with (File_Write only_x_open 1 (replicate (Z.to_nat 15361) 0) 15361)
    (fun '(ret, st') => ret = -1 /\ osErrno st' = Some E_BAD_FD).
Proof. by_running. Qed.

(** C8 does not hold of the format [FS_Boot] gives a fresh image.
    The sector bitmap occupies sectors 2 to 4 and the data blocks start at
    sector 255.  Initialising the inode bitmap (sector 1) also writes
    sector 2, outside its region; and after the format sectors 3 and 4
    carry the byte 0xFE at offset 31, so the bits 4344-4350 and 8440-8446
    of the sector bitmap are 1 although they lie beyond the data-block
    start. *)
Theorem FS_Boot_bitmaps_after_format :
  INODE_BITMAP_START_SECTOR = 1 /\ INODE_BITMAP_SECTORS = 1 /\
  SECTOR_BITMAP_START_SECTOR = 2 /\ SECTOR_BITMAP_SECTORS = 3 /\
  DATABLOCK_START_SECTOR = 255 /\
  map fst (bitmap_init_writes INODE_BITMAP_START_SECTOR
                              INODE_BITMAP_SECTORS 1) = [1; 2] /\
  Disk_Read (the_disk fresh) 1 = Some (0x80 :: replicate 511 0) /\
  Disk_Read (the_disk fresh) 2
    = Some (replicate 31 0xFF ++ 0xFE :: replicate 480 0) /\
  Disk_Read (the_disk fresh) 3
    = Some (replicate 31 0 ++ 0xFE :: replicate 480 0) /\
  Disk_Read (the_disk fresh) 4
    = Some (replicate 31 0 ++ 0xFE :: replicate 480 0) /\
  forallb (bitmap_bit (the_disk fresh) SECTOR_BITMAP_START_SECTOR)
          (seqZ 4344 7 ++ seqZ 8440 7) = true.
Proof. by_running. Qed.

(** C9 does not hold of [find_child_inode].  The two disks have the
    same inode table, their root directory has size 1 and the same slot 0,
    and they differ in slot 1: empty on the first, the stale entry of an
    unlinked file [x] on the second.  Looking [x] up answers -1 on the
    first and inode 2 on the second, so slot 1 is examined. *)
Theorem find_child_inode_reads_slot_n :
  (forall s, INODE_TABLE_START_SECTOR <= s < DATABLOCK_START_SECTOR ->
     Disk_Read (the_disk with_a) s = Disk_Read (the_disk x_unlinked) s) /\
  root_size with_a = Some 1 /\ root_size x_unlinked = Some 1 /\
  root_slot with_a 0 = root_slot x_unlinked 0 /\
  root_slot with_a 1 = Some (replicate 20 0) /\
  root_slot x_unlinked 1 = Some (dirent_bytes "x" 2) /\
  ends_with (find_child_inode (the_disk with_a) 0 (c_bytes "x")
                              (root_cache with_a))
    (fun r => r.1 = -1) /\
  ends_with (find_child_inode (the_disk x_unlinked) 0 (c_bytes "x")
                              (root_cache x_unlinked))
    (fun r => r.1 = 2).
Proof.
  split; [| by_running].
  assert (Hall : Forall (fun s => Disk_Read (the_disk with_a) s
                                  = Disk_Read (the_disk x_unlinked) s)
                        (seqZ INODE_TABLE_START_SECTOR
                              (DATABLOCK_START_SECTOR
                               - INODE_TABLE_START_SECTOR))).
  { refine (bool_decide_eq_true_1 _ _). vm_compute. reflexivity. }
  intros s Hs. rewrite Forall_forall in Hall. apply Hall.
  apply elem_of_seqZ. lia.
Qed.

(** The hypotheses of C6 are met by an open file: [/a] resolves to inode 1
    under the root and descriptor 0 references it. *)
Lemma File_Unlink_open_file_witness :
  names_inode a_open 1 /\
  exists st',
    File_Unlink a_open "/a" = Done (-1, st') /\
    osErrno st' = Some E_FILE_IN_USE /\
    the_disk st' = the_disk a_open /\
    open_files st' = open_files a_open.
Proof.
  assert (Hopen : names_inode a_open 1).
  { exists 0. split; [unfold MAX_OPEN_FILES; lia | vm_compute; reflexivity]. }
  split; [exact Hopen |].
  apply (File_Unlink_open_file a_open "/a"
           {| fp_ret := 0; fp_last_inode := Some 1;
              fp_last_fname := Some (c_bytes "a") |} 1).
  - vm_compute. reflexivity.
  - simpl. lia.
  - reflexivity.
  - lia.
  - exact Hopen.
Defined.

End Standard.

(** * More of the code, for every geometry *)

Section Table.
Context `{G : Geometry}.

Lemma slot_set_slot_eq (st : fs) (fd : Z) (f : open_file_t) :
  0 <= fd ->
  (Z.to_nat fd < length (open_files st))%nat ->
  slot (set_slot st fd f) fd = f.
Proof.
  intros Hfd Hlen. unfold slot, set_slot. simpl.
  rewrite nth_lookup, list_lookup_insert_eq by done. reflexivity.
Qed.

Lemma slot_set_slot_ne (st : fs) (fd i : Z) (f : open_file_t) :
  0 <= fd -> 0 <= i -> i <> fd ->
  slot (set_slot st fd f) i = slot st i.
Proof.
  intros Hfd Hi Hne. unfold slot, set_slot. simpl.
  rewrite !nth_lookup, list_lookup_insert_ne by lia. reflexivity.
Qed.

(** A slot whose inode is not 0 lies inside the list that holds the table. *)
Lemma slot_in_use_in_list (st : fs) (fd : Z) :
  inode (slot st fd) <> 0 ->
  (Z.to_nat fd < length (open_files st))%nat.
Proof.
  unfold slot. rewrite nth_lookup. intros Hin.
  destruct (open_files st !! Z.to_nat fd) eqn:Hl.
  - now apply lookup_lt_Some in Hl.
  - simpl in Hin. congruence.
Qed.

Lemma find_seqZ_first (P : Z -> bool) (n : nat) :
  forall m k,
    m <= k < m + Z.of_nat n ->
    P k = true ->
    (forall i, m <= i < k -> P i = false) ->
    find P (seqZ m (Z.of_nat n)) = Some k.
Proof.
  induction n as [| n IH]; intros m k Hk Hyes Hno; [lia |].
  rewrite Nat2Z.inj_succ, seqZ_cons by lia. simpl.
  destruct (decide (k = m)) as [-> | Hne].
  - now rewrite Hyes.
  - rewrite Hno by lia. rewrite Z.pred_succ. apply IH; [lia | done |].
    intros i Hi. apply Hno. lia.
Qed.

Lemma find_seqZ_none (P : Z -> bool) (m n : Z) :
  (forall i, m <= i < m + n -> P i = false) ->
  find P (seqZ m n) = None.
Proof.
  intros Hno. destruct (find P (seqZ m n)) as [x |] eqn:Hfind; [| done].
  apply find_some in Hfind as [Hin Hx].
  apply list_elem_of_In, elem_of_seqZ in Hin. rewrite Hno in Hx by done.
  discriminate.
Qed.

Lemma find_seqZ_below (P : Z -> bool) (n : nat) :
  forall m k,
    find P (seqZ m (Z.of_nat n)) = Some k ->
    forall j, m <= j < k -> P j = false.
Proof.
  induction n as [| n IH]; intros m k Hk j Hj; [discriminate |].
  rewrite Nat2Z.inj_succ, seqZ_cons in Hk by lia. simpl in Hk.
  destruct (P m) eqn:Hm.
  - simplify_eq. lia.
  - rewrite Z.pred_succ in Hk.
    destruct (decide (j = m)) as [-> | Hne]; [done |].
    apply (IH _ _ Hk). lia.
Qed.

(** X1: [new_file_fd] returns the lowest descriptor whose slot holds an
    inode number that is not positive. *)
Theorem new_file_fd_lowest_free (st : fs) (fd : Z) :
  0 <= fd < MAX_OPEN_FILES ->
  inode (slot st fd) <= 0 ->
  (forall i, 0 <= i < fd -> 0 < inode (slot st i)) ->
  new_file_fd st = fd.
Proof.
  intros Hfd Hfree Hbusy. unfold new_file_fd, MAX_OPEN_FILES in *.
  change 256 with (Z.of_nat 256).
  rewrite (find_seqZ_first _ 256 0 fd); [done | lia | |].
  - now apply Z.leb_le.
  - intros i Hi. apply Z.leb_gt. apply Hbusy. lia.
Qed.

(** X2: with every slot of the table in use [File_Open] fails with
    [E_TOO_MANY_OPEN_FILES] before it looks at the path, and changes
    nothing else. *)
Theorem File_Open_table_full (st : fs) (file : string) :
  (forall i, 0 <= i < MAX_OPEN_FILES -> 0 < inode (slot st i)) ->
  File_Open st file = Done (-1, set_errno E_TOO_MANY_OPEN_FILES st).
Proof.
  intros Hbusy. unfold File_Open, new_file_fd.
  rewrite find_seqZ_none; [reflexivity |].
  intros i Hi. apply Z.leb_gt. apply Hbusy. lia.
Qed.

Lemma new_file_fd_range (st : fs) :
  new_file_fd st = -1 \/
  (0 <= new_file_fd st < MAX_OPEN_FILES /\
   inode (slot st (new_file_fd st)) <= 0).
Proof.
  unfold new_file_fd.
  destruct (find _ (seqZ 0 MAX_OPEN_FILES)) as [x |] eqn:Hfind; [right | now left].
  apply find_some in Hfind as [Hin Hx].
  apply list_elem_of_In, elem_of_seqZ in Hin. simpl. split; [lia |].
  now apply Z.leb_le.
Qed.

(** X3: a successful [File_Open] returns the descriptor [new_file_fd]
    picks, which lies in the table; the path resolved to a regular file,
    whose inode number and size go into the slot with position 0; the disk
    and [osErrno] are as before. *)
Theorem File_Open_success (st st' : fs) (file : string) (fd : Z) :
  File_Open st file = Done (fd, st') ->
  0 <= fd ->
  fd = new_file_fd st /\ fd < MAX_OPEN_FILES /\
  the_disk st' = the_disk st /\ osErrno st' = osErrno st /\
  exists r child inode_buffer p,
    follow_path (the_disk st) file = Done r /\
    fp_last_inode r = Some child /\ 0 <= child /\
    Disk_Read (the_disk st) (inode_sector_of child) = Some inode_buffer /\
    inode_ptr (inode_sector_of child) child = Done p /\
    inode_type inode_buffer p = 0 /\
    open_files st'
    = <[Z.to_nat fd := {| inode := child;
                          size := inode_size inode_buffer p; pos := 0 |}]>
        (open_files st).
Proof.
  unfold File_Open. intros Hopen Hfd.
  destruct (Z.ltb_spec (new_file_fd st) 0) as [Hneg | Hpos];
    [simplify_eq; lia |].
  destruct (follow_path (the_disk st) file) as [r |] eqn:Hpath;
    simpl in Hopen; [| discriminate].
  destruct (fp_last_inode r) as [child |] eqn:Hlast; [| discriminate].
  destruct (Z.leb_spec 0 child) as [Hchild | Hchild];
    [| simplify_eq; lia].
  destruct (Disk_Read (the_disk st) (inode_sector_of child))
    as [inode_buffer |] eqn:Hread; [| simplify_eq; lia].
  destruct (inode_ptr (inode_sector_of child) child) as [p |] eqn:Hptr;
    simpl in Hopen; [| discriminate].
  destruct (Z.eqb_spec (inode_type inode_buffer p) 0) as [Htype | Htype];
    simpl in Hopen; [| simplify_eq; lia].
  injection Hopen as <- <-.
  destruct (new_file_fd_range st) as [Hnone | [Hrange _]]; [lia |].
  repeat split; try lia.
  exists r, child, inode_buffer, p. repeat split; try done.
Qed.

(** X4: [File_Close] on a descriptor in the table whose slot holds a
    positive inode number returns 0 and sets that inode field to 0; the
    slot then counts as free, every other slot and the disk are as before. *)
Theorem File_Close_frees_slot (st : fs) (fd : Z) :
  in_table fd = true ->
  0 < inode (slot st fd) ->
  exists st',
    File_Close st fd = Done (0, st') /\
    inode (slot st' fd) = 0 /\
    0 <= new_file_fd st' <= fd /\
    (forall i, 0 <= i -> i <> fd -> slot st' i = slot st i) /\
    the_disk st' = the_disk st /\ osErrno st' = osErrno st.
Proof.
  intros Hfd Hopen. unfold in_table, MAX_OPEN_FILES in Hfd.
  assert (Hlen : (Z.to_nat fd < length (open_files st))%nat)
    by (apply slot_in_use_in_list; lia).
  eexists. split; [| split; [| split; [| split]]].
  - unfold File_Close, MAX_OPEN_FILES, in_table, MAX_OPEN_FILES.
    destruct (Z.ltb_spec fd 0); [lia |].
    destruct (Z.ltb_spec 256 fd); [lia |]. simpl.
    rewrite Hfd. simpl.
    destruct (Z.leb_spec (inode (slot st fd)) 0); [lia |]. reflexivity.
  - rewrite slot_set_slot_eq by (done || lia). reflexivity.
  - set (st1 := set_slot st fd {| inode := 0; size := size (slot st fd);
                                  pos := pos (slot st fd) |}).
    assert (Hfree : (inode (slot st1 fd) <=? 0) = true).
    { unfold st1. rewrite slot_set_slot_eq by (done || lia). reflexivity. }
    unfold new_file_fd, MAX_OPEN_FILES. change 256 with (Z.of_nat 256).
    destruct (find _ (seqZ 0 (Z.of_nat 256))) as [x |] eqn:Hfind; simpl.
    + pose proof (find_seqZ_below _ _ _ _ Hfind) as Hbelow.
      apply find_some in Hfind as [Hin _].
      apply list_elem_of_In, elem_of_seqZ in Hin. split; [lia |].
      destruct (Z.le_gt_cases x fd) as [Hle | Hgt]; [done |].
      rewrite (Hbelow fd) in Hfree by lia. discriminate.
    + apply find_none with (x := fd) in Hfind.
      * rewrite Hfind in Hfree. discriminate.
      * apply list_elem_of_In, elem_of_seqZ. lia.
  - intros i Hi Hne. apply slot_set_slot_ne; lia.
  - split; reflexivity.
Qed.

(** X5: [File_Close] refuses a descriptor below 0 or above
    [MAX_OPEN_FILES] and a slot whose inode number is not positive with
    [E_BAD_FD]; the descriptor [MAX_OPEN_FILES] itself passes the range
    test and indexes the table one past its end. *)
Theorem File_Close_rejects (st : fs) (fd : Z) :
  (fd < 0 \/ MAX_OPEN_FILES < fd \/
   (in_table fd = true /\ inode (slot st fd) <= 0) ->
   File_Close st fd = Done (-1, set_errno E_BAD_FD st)) /\
  File_Close st MAX_OPEN_FILES = Crash OutOfBounds.
Proof.
  split; [| reflexivity].
  unfold File_Close, in_table. intros [Hlow | [Hhigh | [Hin Hfree]]].
  - destruct (Z.ltb_spec fd 0); [reflexivity | lia].
  - destruct (Z.ltb_spec MAX_OPEN_FILES fd); [| lia].
    now rewrite orb_true_r.
  - unfold MAX_OPEN_FILES in *.
    destruct (Z.ltb_spec fd 0); [lia |].
    destruct (Z.ltb_spec 256 fd); [lia |]. simpl. rewrite Hin. simpl.
    destruct (Z.leb_spec (inode (slot st fd)) 0); [reflexivity | lia].
Qed.

(** X6: for a descriptor inside the table [File_Seek] never answers
    [E_BAD_FD], open slot or not: it refuses an offset above the cached
    size (and any offset when that size is negative) with
    [E_SEEK_OUT_OF_BOUNDS], and otherwise stores the offset in [pos] and
    returns it. *)
Theorem File_Seek_in_table (st : fs) (fd offset : Z) :
  in_table fd = true ->
  File_Seek st fd offset =
    if (size (slot st fd) <? offset) || (size (slot st fd) <? 0)
    then Done (-1, set_errno E_SEEK_OUT_OF_BOUNDS st)
    else Done (offset,
               set_slot st fd {| inode := inode (slot st fd);
                                 size := size (slot st fd); pos := offset |}).
Proof.
  intros Hfd. unfold File_Seek. rewrite Hfd. simpl.
  assert (Hopen : is_file_open st (inode (slot st fd)) = true).
  { apply is_file_open_iff. exists fd. split; [| reflexivity].
    unfold in_table in Hfd. lia. }
  now rewrite Hopen.
Qed.

End Table.

Section Paths.
Context `{G : Geometry}.

Lemma follow_tokens_skip_empty (d : disk) (tokens : list (list Z)) :
  forall parent_inode child_inode cache last_fname,
    follow_tokens d (filter (fun t => t <> []) tokens) parent_inode
                  child_inode cache last_fname
    = follow_tokens d tokens parent_inode child_inode cache last_fname.
Proof.
  induction tokens as [| token rest IH]; intros p c cache lf; [reflexivity |].
  destruct token as [| b token].
  - rewrite filter_cons_False by auto. simpl. apply IH.
  - rewrite filter_cons_True by done. simpl.
    destruct (illegal_filename (b :: token)); [reflexivity |].
    destruct (c <? 0); [reflexivity |].
    destruct (find_child_inode d c (b :: token) cache); simpl; [apply IH | done].
Qed.

Lemma follow_path_components (d : disk) (path : string) (rest : list Z) :
  c_bytes path = 47 :: rest ->
  follow_path d path =
    match Disk_Read d INODE_TABLE_START_SECTOR with
    | None => Done (path_failed None)
    | Some cached_buffer =>
        follow_tokens d (components rest) (-1) 0
                      (INODE_TABLE_START_SECTOR, cached_buffer) None
    end.
Proof.
  intros Hpath. unfold follow_path, components, path_tokens. rewrite Hpath.
  simpl. destruct (Disk_Read d INODE_TABLE_START_SECTOR); [| reflexivity].
  now rewrite follow_tokens_skip_empty.
Qed.

(** X7: [follow_path] ignores empty tokens: two absolute paths with the
    same components, whatever slashes they repeat or end in, resolve
    alike. *)
Theorem follow_path_same_components
    (d : disk) (p q : string) (rest_p rest_q : list Z) :
  c_bytes p = 47 :: rest_p ->
  c_bytes q = 47 :: rest_q ->
  components rest_p = components rest_q ->
  follow_path d p = follow_path d q.
Proof.
  intros Hp Hq Hsame.
  rewrite (follow_path_components d p rest_p Hp),
          (follow_path_components d q rest_q Hq), Hsame.
  reflexivity.
Qed.

Lemma follow_tokens_illegal (d : disk) (tokens : list (list Z)) :
  forall parent_inode child_inode cache last_fname r,
    Exists (fun t => illegal_filename t = true) tokens ->
    Forall (fun t => t <> []) tokens ->
    follow_tokens d tokens parent_inode child_inode cache last_fname = Done r ->
    fp_ret r = -1 /\ fp_last_inode r = None.
Proof.
  induction tokens as [| token rest IH];
    intros p c cache lf r Hbad Hfull Hrun.
  - now apply Exists_nil in Hbad.
  - apply Forall_cons in Hfull as [Htoken Hfull].
    destruct token as [| b token]; [done |]. simpl in Hrun.
    destruct (illegal_filename (b :: token)) eqn:Hill.
    + injection Hrun as <-. done.
    + apply Exists_cons in Hbad as [Hbad | Hbad]; [congruence |].
      destruct (c <? 0); [injection Hrun as <-; done |].
      destruct (find_child_inode d c (b :: token) cache) as [x |];
        simpl in Hrun; [| discriminate].
      eapply IH; eauto.
Qed.

(** X8: a path with an illegal component cannot be followed: when
    [follow_path] returns at all, it returns -1 and leaves [*last_inode]
    unwritten. *)
Theorem follow_path_illegal_component
    (d : disk) (path : string) (rest : list Z) (r : path_result) :
  c_bytes path = 47 :: rest ->
  Exists (fun t => illegal_filename t = true) (components rest) ->
  follow_path d path = Done r ->
  fp_ret r = -1 /\ fp_last_inode r = None.
Proof.
  intros Hpath Hbad. rewrite (follow_path_components d path rest Hpath).
  destruct (Disk_Read d INODE_TABLE_START_SECTOR); [| now intros [= <-]].
  apply follow_tokens_illegal; [done |].
  unfold components. apply Forall_forall. intros t Ht.
  now apply list_elem_of_filter in Ht as [Hne _].
Qed.

Lemma c_bytes_no_nul (s : string) : Forall (fun b => b <> 0) (c_bytes s).
Proof.
  induction s as [| c s IH]; simpl; [constructor |].
  destruct (Z.eqb_spec (Z.of_N (N_of_ascii c)) 0); constructor; done.
Qed.

Lemma path_with_component_not_root (path : string) (rest : list Z) :
  c_bytes path = 47 :: rest ->
  components rest <> [] ->
  strcmp_eq (c_bytes path ++ [0]) [47] = false.
Proof.
  intros Hpath Hcomp. rewrite Hpath. simpl.
  pose proof (c_bytes_no_nul path) as Hnul. rewrite Hpath in Hnul.
  apply Forall_cons in Hnul as [_ Hnul].
  destruct rest as [| b rest]; [done |]. simpl.
  apply Forall_cons in Hnul as [Hb _]. now apply Z.eqb_neq.
Qed.

(** X9: every call that follows a path with an illegal component fails,
    unless following the path itself runs into undefined behaviour, and
    changes nothing but [osErrno]: creation with [E_CREATE], [File_Unlink]
    with [E_NO_SUCH_FILE], [Dir_Unlink], [Dir_Size] and [Dir_Read] with
    [E_NO_SUCH_DIR].  [File_Open] alone ignores what [follow_path] returns:
    with a full table it fails with [E_TOO_MANY_OPEN_FILES], and otherwise
    it branches on the child inode number that was never written. *)
Theorem illegal_component_rejected
    (st : fs) (path : string) (rest : list Z) (type n : Z) :
  c_bytes path = 47 :: rest ->
  Exists (fun t => illegal_filename t = true) (components rest) ->
  crash_or (create_file_or_directory st type path)
           (-1, set_errno E_CREATE st) /\
  crash_or (File_Unlink st path) (-1, set_errno E_NO_SUCH_FILE st) /\
  crash_or (Dir_Unlink st path) (-1, set_errno E_NO_SUCH_DIR st) /\
  crash_or (Dir_Size st path) (-1, set_errno E_NO_SUCH_DIR st) /\
  crash_or (Dir_Read st path n) (-1, [], set_errno E_NO_SUCH_DIR st) /\
  (new_file_fd st < 0 ->
   File_Open st path = Done (-1, set_errno E_TOO_MANY_OPEN_FILES st)) /\
  (0 <= new_file_fd st -> exists f, File_Open st path = Crash f).
Proof.
  intros Hpath Hbad.
  assert (Hroot : strcmp_eq (c_bytes path ++ [0]) [47] = false).
  { apply (path_with_component_not_root path rest Hpath).
    intros Hnil. rewrite Hnil in Hbad. now apply Exists_nil in Hbad. }
  assert (Hstop : forall r, follow_path (the_disk st) path = Done r ->
            fp_ret r = -1 /\ fp_last_inode r = None).
  { intros r.
    rewrite (follow_path_components (the_disk st) path rest Hpath).
    destruct (Disk_Read (the_disk st) INODE_TABLE_START_SECTOR);
      [| now intros [= <-]].
    apply follow_tokens_illegal; [done |].
    unfold components. apply Forall_forall. intros t Ht.
    now apply list_elem_of_filter in Ht as [Hne _]. }
  assert (Hopen :
            (new_file_fd st < 0 ->
             File_Open st path
             = Done (-1, set_errno E_TOO_MANY_OPEN_FILES st)) /\
            (0 <= new_file_fd st -> exists f, File_Open st path = Crash f)).
  { unfold File_Open. split; intros Hfd;
      (destruct (Z.ltb_spec (new_file_fd st) 0); [| ]); try lia;
      [reflexivity |].
    destruct (follow_path (the_disk st) path) as [r | f] eqn:Hfollow;
      cbn [mbind outcome_bind]; [| eauto].
    destruct (Hstop r eq_refl) as [_ ->]. eauto. }
  destruct Hopen as [Hfull Hroom].
  unfold crash_or, create_file_or_directory, File_Unlink, Dir_Unlink,
    Dir_Size, Dir_Read.
  destruct (follow_path (the_disk st) path) as [r | f] eqn:Hfollow;
    cbn [mbind outcome_bind].
  - destruct (Hstop r eq_refl) as [Hret Hlast].
    rewrite Hret, Hroot. simpl.
    split; [right; reflexivity |]. split; [right; reflexivity |].
    split; [right; reflexivity |]. split; [right; reflexivity |].
    split; [right; reflexivity |]. split; assumption.
  - split; [left; eauto |]. split; [left; eauto |].
    split; [left; eauto |]. split; [left; eauto |].
    split; [left; eauto |]. split; assumption.
Qed.

(** X10: creating a name that already resolves fails with [E_CREATE]
    and changes nothing else, for a file and for a directory. *)
Theorem create_existing_name
    (st : fs) (type : Z) (pathname : string) (r : path_result) (child : Z) :
  follow_path (the_disk st) pathname = Done r ->
  0 <= fp_ret r ->
  fp_last_inode r = Some child ->
  0 <= child ->
  create_file_or_directory st type pathname
  = Done (-1, set_errno E_CREATE st).
Proof.
  intros Hpath Hparent Hlast Hchild. unfold create_file_or_directory.
  rewrite Hpath. simpl. rewrite Hlast.
  destruct (Z.leb_spec 0 (fp_ret r)); [| lia].
  destruct (Z.leb_spec 0 child); [reflexivity | lia].
Qed.

Lemma remove_inode_refuses
    (st : fs) (type parent_inode child_inode p : Z) (inode_buffer : buffer) :
  Disk_Read (the_disk st) (inode_sector_of child_inode) = Some inode_buffer ->
  inode_ptr (inode_sector_of child_inode) child_inode = Done p ->
  (inode_type inode_buffer p <> type ->
   remove_inode st type parent_inode child_inode = Done (-3, st)) /\
  (inode_type inode_buffer p = 1 -> 0 < inode_size inode_buffer p ->
   type = 1 ->
   remove_inode st type parent_inode child_inode = Done (-2, st)).
Proof.
  intros Hread Hptr. unfold remove_inode. rewrite Hread, Hptr. simpl. split.
  - intros Htype. now apply Z.eqb_neq in Htype as ->.
  - intros Hdir Hsize ->. rewrite Hdir. simpl.
    now apply Z.ltb_lt in Hsize as ->.
Qed.

(** X11: [Dir_Unlink] on a path that resolves to a directory with
    entries, or to an inode that is not a directory, fails with
    [E_DIR_NOT_EMPTY] and changes nothing else. *)
Theorem Dir_Unlink_refused
    (st : fs) (path : string) (r : path_result) (child p : Z)
    (inode_buffer : buffer) :
  follow_path (the_disk st) path = Done r ->
  0 <= fp_ret r ->
  fp_last_inode r = Some child ->
  strcmp_eq (c_bytes path ++ [0]) [47] = false ->
  Disk_Read (the_disk st) (inode_sector_of child) = Some inode_buffer ->
  inode_ptr (inode_sector_of child) child = Done p ->
  inode_type inode_buffer p <> 1 \/ 0 < inode_size inode_buffer p ->
  Dir_Unlink st path = Done (-1, set_errno E_DIR_NOT_EMPTY st).
Proof.
  intros Hpath Hparent Hlast Hroot Hread Hptr Hwhy. unfold Dir_Unlink.
  rewrite Hpath. simpl. rewrite Hroot, Hlast.
  destruct (Z.ltb_spec (fp_ret r) 0); [lia |].
  destruct (remove_inode_refuses st 1 (fp_ret r) child p inode_buffer
              Hread Hptr) as [Hwrong Hfull].
  destruct (decide (inode_type inode_buffer p = 1)) as [Hdir | Hnot].
  - destruct Hwhy as [Hnot | Hsize]; [done |].
    now rewrite Hfull.
  - now rewrite Hwrong.
Qed.

(** X12: [File_Unlink] on a path that resolves to an inode that is not a
    regular file and that no descriptor references fails with [E_GENERAL]
    and changes nothing else. *)
Theorem File_Unlink_not_a_file
    (st : fs) (file : string) (r : path_result) (child p : Z)
    (inode_buffer : buffer) :
  follow_path (the_disk st) file = Done r ->
  0 <= fp_ret r ->
  fp_last_inode r = Some child ->
  0 <= child ->
  is_file_open st child = false ->
  Disk_Read (the_disk st) (inode_sector_of child) = Some inode_buffer ->
  inode_ptr (inode_sector_of child) child = Done p ->
  inode_type inode_buffer p <> 0 ->
  File_Unlink st file = Done (-1, set_errno E_GENERAL st).
Proof.
  intros Hpath Hparent Hlast Hchild Hclosed Hread Hptr Htype.
  unfold File_Unlink. rewrite Hpath. simpl. rewrite Hlast, Hclosed.
  destruct (Z.leb_spec 0 (fp_ret r)); [| lia].
  destruct (Z.leb_spec 0 child); [| lia].
  destruct (remove_inode_refuses st 0 (fp_ret r) child p inode_buffer
              Hread Hptr) as [Hwrong _].
  now rewrite Hwrong.
Qed.

(** X13: [Dir_Size] of a directory is the number of its entries times the
    size of a directory entry, and the call changes nothing. *)
Theorem Dir_Size_directory
    (st : fs) (path : string) (r : path_result) (child p : Z)
    (inode_buffer : buffer) :
  follow_path (the_disk st) path = Done r ->
  0 <= fp_ret r ->
  fp_last_inode r = Some child ->
  0 <= child ->
  Disk_Read (the_disk st) (inode_sector_of child) = Some inode_buffer ->
  inode_ptr (inode_sector_of child) child = Done p ->
  inode_type inode_buffer p = 1 ->
  0 <= inode_size inode_buffer p * sizeof_dirent_t < 2 ^ 31 ->
  Dir_Size st path
  = Done (inode_size inode_buffer p * sizeof_dirent_t, st).
Proof.
  intros Hpath Hparent Hlast Hchild Hread Hptr Htype Hrange.
  unfold Dir_Size. rewrite Hpath. simpl. rewrite Hlast, Hread, Hptr. simpl.
  destruct (Z.ltb_spec (fp_ret r) 0); [lia |].
  destruct (Z.leb_spec 0 child); [| lia]. rewrite Htype. simpl.
  do 2 f_equal. unfold to_int, to_size_t, sizeof_dirent_t, MAX_NAME in *.
  assert (Hsize : 0 <= inode_size inode_buffer p < 2 ^ 31) by lia.
  rewrite (Z.mod_small (inode_size inode_buffer p)) by lia.
  rewrite (Z.mod_small (inode_size inode_buffer p * (16 + 4))) by lia.
  rewrite Z.mod_small by lia. lia.
Qed.

(** X14: when the parent resolves, [Dir_Size] of a last component that
    does not exist is 0, not an error; and of an inode that is not a
    directory it is -1 with [osErrno] left as it was. *)
Theorem Dir_Size_not_a_directory
    (st : fs) (path : string) (r : path_result) (child : Z) :
  follow_path (the_disk st) path = Done r ->
  0 <= fp_ret r ->
  fp_last_inode r = Some child ->
  (child < 0 -> Dir_Size st path = Done (0, st)) /\
  (forall inode_buffer p,
     0 <= child ->
     Disk_Read (the_disk st) (inode_sector_of child) = Some inode_buffer ->
     inode_ptr (inode_sector_of child) child = Done p ->
     inode_type inode_buffer p <> 1 ->
     Dir_Size st path = Done (-1, st)).
Proof.
  intros Hpath Hparent Hlast. unfold Dir_Size.
  rewrite Hpath. simpl. rewrite Hlast.
  destruct (Z.ltb_spec (fp_ret r) 0); [lia |]. split.
  - intros Hneg. destruct (Z.leb_spec 0 child); [lia | reflexivity].
  - intros inode_buffer p Hchild Hread Hptr Htype.
    destruct (Z.leb_spec 0 child); [| lia]. rewrite Hread, Hptr. simpl.
    now apply Z.eqb_neq in Htype as ->.
Qed.

End Paths.

Section Bitmaps.
Context `{G : Geometry}.

Lemma peek_poke_eq (buf : buffer) (i v : Z) :
  0 <= i < Z.of_nat (length buf) -> peek (poke buf i v) i = v.
Proof.
  intros Hi. unfold peek, poke, buffer in *.
  destruct (Z.leb_spec 0 i); [| lia]. simpl.
  rewrite list_lookup_insert_eq by lia. reflexivity.
Qed.

Lemma peek_poke_ne (buf : buffer) (i j v : Z) :
  i <> j -> peek (poke buf i v) j = peek buf j.
Proof.
  intros Hne. unfold peek, poke, buffer in *.
  destruct (Z.leb_spec 0 i); [| reflexivity].
  destruct (Z.leb_spec 0 j); [| reflexivity]. simpl.
  rewrite list_lookup_insert_ne by lia. reflexivity.
Qed.

Lemma bit_index_cases (j : Z) :
  0 <= j < 8 ->
  j = 0 \/ j = 1 \/ j = 2 \/ j = 3 \/ j = 4 \/ j = 5 \/ j = 6 \/ j = 7.
Proof. lia. Qed.

#[local] Ltac each_bit Hj :=
  apply bit_index_cases in Hj;
  repeat (destruct Hj as [-> | Hj]); [.. | subst].

Lemma masks_disjoint (j j' : Z) :
  0 <= j < 8 -> 0 <= j' < 8 -> j <> j' ->
  Z.land (bit_mask j) (bit_mask j') = 0 /\
  Z.land (reset_mask j) (bit_mask j') = bit_mask j'.
Proof.
  intros Hj Hj' Hne. each_bit Hj; each_bit Hj'; try done; split; reflexivity.
Qed.

Lemma reset_mask_clears (j : Z) :
  0 <= j < 8 -> Z.land (reset_mask j) (bit_mask j) = 0.
Proof. intros Hj. each_bit Hj; reflexivity. Qed.

Lemma isBitSet_setBit_other (c j j' : Z) :
  0 <= j < 8 -> 0 <= j' < 8 -> j <> j' ->
  isBitSet (setBit c j) j' = isBitSet c j'.
Proof.
  intros Hj Hj' Hne. unfold isBitSet, setBit.
  rewrite Z.land_lor_distr_l.
  destruct (masks_disjoint j j' Hj Hj' Hne) as [-> _].
  now rewrite Z.lor_0_r.
Qed.

Lemma isBitSet_reset_other (c j j' : Z) :
  0 <= j < 8 -> 0 <= j' < 8 -> j <> j' ->
  isBitSet (Z.land c (reset_mask j)) j' = isBitSet c j'.
Proof.
  intros Hj Hj' Hne. unfold isBitSet.
  rewrite <- Z.land_assoc.
  destruct (masks_disjoint j j' Hj Hj' Hne) as [_ ->]. reflexivity.
Qed.

Lemma isBitSet_reset_same (c j : Z) :
  0 <= j < 8 -> isBitSet (Z.land c (reset_mask j)) j = false.
Proof.
  intros Hj. unfold isBitSet.
  rewrite <- Z.land_assoc, reset_mask_clears, Z.land_0_r by done.
  reflexivity.
Qed.

Lemma bit_split (k : Z) : k = 8 * (k / 8) + k mod 8 /\ 0 <= k mod 8 < 8.
Proof.
  split; [apply Z.div_mod; lia | apply Z.mod_pos_bound; lia].
Qed.

Lemma same_bit (i k : Z) : i / 8 = k / 8 -> i mod 8 = k mod 8 -> i = k.
Proof.
  intros Hq Hr. destruct (bit_split i) as [Hi _], (bit_split k) as [Hk _].
  lia.
Qed.

(** Setting bit [k] of a sector leaves every other bit as it was. *)
Lemma bit_at_mark_other (buf : buffer) (k i : Z) :
  i <> k -> bit_at (mark buf k) i = bit_at buf i.
Proof.
  intros Hne. unfold bit_at, mark.
  destruct (decide (k / 8 = i / 8)) as [Hq | Hq].
  - destruct (Z_lt_le_dec (k / 8) 0) as [Hneg | Hpos].
    + unfold poke. destruct (Z.leb_spec 0 (k / 8)); [lia | reflexivity].
    + destruct (Z_lt_le_dec (k / 8) (Z.of_nat (length buf))) as [Hin | Hout].
      * rewrite <- Hq, peek_poke_eq by lia.
        apply isBitSet_setBit_other; try apply bit_split.
        intros Hr. apply Hne. now apply same_bit.
      * unfold poke, buffer in *.
        destruct (Z.leb_spec 0 (k / 8)); [| reflexivity].
        rewrite list_insert_ge by lia. reflexivity.
  - now rewrite peek_poke_ne.
Qed.

(** ** One sector of the scan *)

Lemma bitmap_scan_sector_full
    (st : fs) (i : Z) (rest : list Z) (nbits loc : Z) (last : bool)
    (buf : buffer) :
  0 <= nbits ->
  nbits / 8 < SECTOR_SIZE ->
  Disk_Read (the_disk st) i = Some buf ->
  prefix_full buf nbits ->
  bitmap_scan_sectors st (i :: rest) (nbits / 8) (nbits mod 8) last loc
  = bitmap_scan_sectors st rest (nbits / 8) (nbits mod 8) true (loc + nbits).
Proof.
  intros Hn Hfit Hread Hset. simpl. rewrite Hread.
  destruct (Z.ltb_spec (nbits / 8) SECTOR_SIZE); [| lia].
  pose proof (Z.div_pos nbits 8 Hn ltac:(lia)) as Hq.
  destruct (bit_split nbits) as [Hdm Hr].
  rewrite <- (Z2Nat.id (nbits / 8)) at 1 by lia.
  rewrite scan_bytes_all_set by (intros k Hk; apply Hset; lia).
  rewrite Z.max_r by lia.
  rewrite <- (Z2Nat.id (nbits mod 8)) at 1 by lia.
  rewrite scan_bits_all_set.
  - rewrite !Z2Nat.id by lia. f_equal. lia.
  - intros j Hj. rewrite <- bit_at_in_byte by lia. apply Hset. lia.
Qed.

Lemma bitmap_scan_sector_first_clear
    (st : fs) (i : Z) (rest : list Z) (nbits loc k : Z) (last : bool)
    (buf : buffer) :
  0 <= k < nbits ->
  nbits / 8 < SECTOR_SIZE ->
  Disk_Read (the_disk st) i = Some buf ->
  bit_at buf k = false ->
  (forall j, 0 <= j < k -> bit_at buf j = true) ->
  bitmap_scan_sectors st (i :: rest) (nbits / 8) (nbits mod 8) last loc
  = (loc + k + 1,
     set_disk (<[Z.to_nat i := mark buf k]> (the_disk st)) st).
Proof.
  intros Hk Hfit Hread Hclear Hset. simpl. rewrite Hread.
  destruct (Z.ltb_spec (nbits / 8) SECTOR_SIZE); [| lia].
  pose proof (Z.div_pos nbits 8 ltac:(lia) ltac:(lia)) as Hq.
  destruct (bit_split nbits) as [Hdm Hr].
  assert (Hcommit : bitmap_commit st i (mark buf k, loc + k + 1)
                    = (loc + k + 1,
                       set_disk (<[Z.to_nat i := mark buf k]> (the_disk st))
                                st)).
  { unfold bitmap_commit. simpl.
    now rewrite (Disk_Write_after_read _ _ buf). }
  destruct (Z.lt_ge_cases k (8 * (nbits / 8))) as [Hin | Hout].
  - rewrite <- (Z2Nat.id (nbits / 8)) at 1 by lia.
    rewrite (scan_bytes_first_clear buf _ 0 loc k)
      by first [lia | done | intros j Hj; apply Hset; lia].
    now replace (loc + (k - 8 * 0) + 1) with (loc + k + 1) by lia.
  - rewrite <- (Z2Nat.id (nbits / 8)) at 1 by lia.
    rewrite scan_bytes_all_set by (intros j Hj; apply Hset; lia).
    rewrite Z.max_r by lia.
    rewrite <- (Z2Nat.id (nbits mod 8)) at 1 by lia.
    assert (Hmark : poke buf (nbits / 8)
                      (setBit (peek buf (nbits / 8)) (k - 8 * (nbits / 8)))
                    = mark buf k).
    { unfold mark.
      replace (k / 8) with (nbits / 8)
        by (apply Z.div_unique with (k - 8 * (nbits / 8)); lia).
      replace (k mod 8) with (k - 8 * (nbits / 8))
        by (apply Z.mod_unique with (nbits / 8); lia).
      reflexivity. }
    rewrite (scan_bits_first_clear buf _ _ 0 _ (k - 8 * (nbits / 8))).
    + rewrite Hmark, Z2Nat.id by lia.
      now replace (loc + 8 * (nbits / 8) + (k - 8 * (nbits / 8) - 0) + 1)
        with (loc + k + 1) by lia.
    + lia.
    + rewrite <- bit_at_in_byte by lia.
      now replace (8 * (nbits / 8) + (k - 8 * (nbits / 8))) with k by lia.
    + intros j Hj. rewrite <- bit_at_in_byte by lia. apply Hset. lia.
Qed.

Lemma bitmap_scan_sectors_all_full (st : fs) (nbits : Z) (n : nat) :
  forall start loc last,
    0 <= nbits ->
    nbits / 8 < SECTOR_SIZE ->
    (forall j, 0 <= j < Z.of_nat n ->
       exists b, Disk_Read (the_disk st) (start + j) = Some b /\
                 prefix_full b nbits) ->
    bitmap_scan_sectors st (seqZ start (Z.of_nat n)) (nbits / 8)
                        (nbits mod 8) last loc
    = (-1, st).
Proof.
  induction n as [| n IH]; intros start loc last Hn Hfit Hall; [reflexivity |].
  rewrite Nat2Z.inj_succ, seqZ_cons, Z.pred_succ by lia.
  destruct (Hall 0 ltac:(lia)) as (b & Hread & Hfull).
  rewrite Z.add_0_r in Hread.
  rewrite (bitmap_scan_sector_full st start _ nbits loc last b) by done.
  apply IH; try done.
  intros j Hj. destruct (Hall (j + 1) ltac:(lia)) as (b' & Hread' & Hfull').
  exists b'. split; [| done]. now replace (Z.succ start + j) with (start + (j + 1)) by lia.
Qed.

Lemma bitmap_scan_sectors_first_clear
    (st : fs) (nbits k : Z) (buf : buffer) (m : nat) :
  forall start loc last num,
    0 <= k < nbits ->
    nbits / 8 < SECTOR_SIZE ->
    Z.of_nat m < num ->
    (forall j, 0 <= j < Z.of_nat m ->
       exists b, Disk_Read (the_disk st) (start + j) = Some b /\
                 prefix_full b nbits) ->
    Disk_Read (the_disk st) (start + Z.of_nat m) = Some buf ->
    bit_at buf k = false ->
    (forall i, 0 <= i < k -> bit_at buf i = true) ->
    bitmap_scan_sectors st (seqZ start num) (nbits / 8) (nbits mod 8)
                        last loc
    = (loc + Z.of_nat m * nbits + k + 1,
       set_disk (<[Z.to_nat (start + Z.of_nat m) := mark buf k]>
                   (the_disk st)) st).
Proof.
  induction m as [| m IH];
    intros start loc last num Hk Hfit Hnum Hall Hread Hclear Hset.
  - rewrite seqZ_cons by lia. simpl in Hread. rewrite Z.add_0_r in Hread.
    rewrite (bitmap_scan_sector_first_clear st start _ nbits loc k last buf)
      by done.
    replace (start + Z.of_nat 0) with start by lia. f_equal. lia.
  - rewrite seqZ_cons by lia.
    destruct (Hall 0 ltac:(lia)) as (b & Hread0 & Hfull0).
    rewrite Z.add_0_r in Hread0.
    rewrite (bitmap_scan_sector_full st start _ nbits loc last b)
      by (done || lia).
    rewrite (IH (Z.succ start) (loc + nbits) true (Z.pred num)); try done.
    + f_equal; [lia |]. do 3 f_equal. lia.
    + lia.
    + intros j Hj.
      destruct (Hall (j + 1) ltac:(lia)) as (b' & Hread' & Hfull').
      exists b'. split; [| done].
      now replace (Z.succ start + j) with (start + (j + 1)) by lia.
    + now replace (Z.succ start + Z.of_nat m)
        with (start + Z.of_nat (S m)) by lia.
Qed.

(** X15: a bitmap of [num] sectors is scanned sector by sector, the same
    first [nbits] bits in each: when sectors [start .. start + m - 1] have
    them all set and bit [k] is the first clear one among them in sector
    [start + m], [bitmap_first_unused] sets that bit, writes that sector
    back and returns [m * nbits + k]. *)
Theorem bitmap_first_unused_in_sector
    (st : fs) (start num nbits m k : Z) (buf : buffer) :
  0 <= k < nbits ->
  nbits / 8 < SECTOR_SIZE ->
  0 <= m < num ->
  (forall j, 0 <= j < m ->
     exists b, Disk_Read (the_disk st) (start + j) = Some b /\
               prefix_full b nbits) ->
  Disk_Read (the_disk st) (start + m) = Some buf ->
  bit_at buf k = false ->
  (forall i, 0 <= i < k -> bit_at buf i = true) ->
  bitmap_first_unused st start num nbits
  = (m * nbits + k,
     set_disk (<[Z.to_nat (start + m) := mark buf k]> (the_disk st)) st).
Proof.
  intros Hk Hfit Hm Hall Hread Hclear Hset. unfold bitmap_first_unused.
  rewrite Z.quot_div_nonneg, Z.rem_mod_nonneg by lia.
  rewrite <- (Z2Nat.id m) in Hall, Hread |- * by lia.
  rewrite (bitmap_scan_sectors_first_clear st nbits k buf (Z.to_nat m));
    try done; [| lia].
  f_equal. lia.
Qed.

(** X16: when every sector of the bitmap has its first [nbits] bits set,
    [bitmap_first_unused] returns -1 and changes nothing. *)
Theorem bitmap_first_unused_exhausted (st : fs) (start num nbits : Z) :
  0 <= nbits ->
  nbits / 8 < SECTOR_SIZE ->
  (forall j, 0 <= j < num ->
     exists b, Disk_Read (the_disk st) (start + j) = Some b /\
               prefix_full b nbits) ->
  bitmap_first_unused st start num nbits = (-1, st).
Proof.
  intros Hn Hfit Hall. unfold bitmap_first_unused.
  rewrite Z.quot_div_nonneg, Z.rem_mod_nonneg by lia.
  destruct (Z_lt_le_dec num 0) as [Hneg | Hpos].
  - rewrite seqZ_nil by lia. reflexivity.
  - rewrite <- (Z2Nat.id num) by lia.
    apply bitmap_scan_sectors_all_full; try done.
    intros j Hj. apply Hall. lia.
Qed.

End Bitmaps.

Section BitmapReset.
Context `{G : Geometry}.

Lemma scan_bits_location (buf : buffer) (a_byte : Z) (bits : list Z) :
  forall loc,
    match scan_bits buf a_byte bits loc with
    | inl found => loc < found.2
    | inr loc' => loc <= loc'
    end.
Proof.
  induction bits as [| bit rest IH]; intros loc; simpl; [lia |].
  destruct (isBitSet _ _); simpl; [| lia].
  specialize (IH (loc + 1)). destruct (scan_bits _ _ _ _); lia.
Qed.

Lemma scan_bytes_location (buf : buffer) (bytes : list Z) :
  forall loc,
    match scan_bytes buf bytes loc with
    | inl found => loc < found.2
    | inr loc' => loc <= loc'
    end.
Proof.
  induction bytes as [| a_byte rest IH]; intros loc; cbn [scan_bytes];
    [lia |].
  pose proof (scan_bits_location buf a_byte (seqZ 0 8) loc) as Hbits.
  destruct (scan_bits _ _ _ _) as [found | loc']; [done |].
  specialize (IH loc'). destruct (scan_bytes _ _ _); lia.
Qed.

Lemma bitmap_commit_keeps (st : fs) (i : Z) (found : buffer * Z) :
  0 <= found.2 ->
  open_files (bitmap_commit st i found).2 = open_files st /\
  -1 <= (bitmap_commit st i found).1 /\
  ((bitmap_commit st i found).1 = -1 ->
   the_disk (bitmap_commit st i found).2 = the_disk st).
Proof.
  intros Hloc. unfold bitmap_commit.
  destruct (Disk_Write _ _ _); simpl; repeat split; try lia; done.
Qed.

Lemma bitmap_scan_sectors_keeps (sectors : list Z) :
  forall st q r last loc,
    -1 <= loc ->
    open_files (bitmap_scan_sectors st sectors q r last loc).2
    = open_files st /\
    -1 <= (bitmap_scan_sectors st sectors q r last loc).1 /\
    ((bitmap_scan_sectors st sectors q r last loc).1 = -1 ->
     the_disk (bitmap_scan_sectors st sectors q r last loc).2 = the_disk st).
Proof.
  induction sectors as [| i rest IH]; intros st q r last loc Hloc; simpl.
  - repeat split; (done || lia).
  - destruct (Disk_Read _ _) as [buf |]; [| simpl; repeat split; (done || lia)].
    pose proof (scan_bytes_location buf
                  (seqZ 0 (if (if q <? SECTOR_SIZE then true else last)
                           then q else SECTOR_SIZE)) loc) as Hbytes.
    destruct (scan_bytes _ _ _) as [found | loc'].
    + apply bitmap_commit_keeps. lia.
    + destruct (if q <? SECTOR_SIZE then true else last); [| apply IH; lia].
      pose proof (scan_bits_location buf (Z.max 0 q) (seqZ 0 r) loc') as Hbits.
      destruct (scan_bits _ _ _ _) as [found | loc''].
      * apply bitmap_commit_keeps. lia.
      * apply IH. lia.
Qed.

(** X17: [bitmap_first_unused] never touches the open-file table, never
    returns less than -1, and when it returns -1 the disk is as it was: a
    failed allocation sets no bit. *)
Theorem bitmap_first_unused_failure (st : fs) (start num nbits : Z) :
  open_files (bitmap_first_unused st start num nbits).2 = open_files st /\
  -1 <= (bitmap_first_unused st start num nbits).1 /\
  ((bitmap_first_unused st start num nbits).1 = -1 ->
   the_disk (bitmap_first_unused st start num nbits).2 = the_disk st).
Proof. apply bitmap_scan_sectors_keeps. lia. Qed.

Lemma reset_wind_small (turns : nat) (number_bytes : Z) :
  number_bytes <= SECTOR_SIZE -> reset_wind turns number_bytes = number_bytes.
Proof.
  intros Hle. destruct turns; simpl; [reflexivity |].
  destruct (Z.ltb_spec SECTOR_SIZE number_bytes); [lia | reflexivity].
Qed.

Lemma Disk_Read_written (d d' : disk) (sector : Z) (buf : buffer) :
  Disk_Write d sector buf = Some d' ->
  Disk_Read d' sector = Some buf /\
  (forall s, s <> sector -> Disk_Read d' s = Disk_Read d s).
Proof.
  unfold Disk_Write, Disk_Read. intros Hwrite.
  destruct ((0 <=? sector) && (sector <? TOTAL_SECTORS)) eqn:Hrange;
    simpl in Hwrite; [| discriminate].
  destruct (Z.ltb_spec sector (Z.of_nat (length d))); [| discriminate].
  injection Hwrite as <-. split.
  - apply list_lookup_insert_eq. lia.
  - intros s Hs.
    destruct ((0 <=? s) && (s <? TOTAL_SECTORS)) eqn:Hs'; [| reflexivity].
    apply list_lookup_insert_ne. lia.
Qed.

Lemma bit_at_unmark (buf : buffer) (k : Z) :
  0 <= k / 8 < Z.of_nat (length buf) ->
  bit_at (unmark buf k) k = false /\
  (forall i, i <> k -> bit_at (unmark buf k) i = bit_at buf i).
Proof.
  intros Hin. unfold bit_at, unmark. split.
  - rewrite peek_poke_eq by done. apply isBitSet_reset_same, bit_split.
  - intros i Hne. destruct (decide (k / 8 = i / 8)) as [Hq | Hq].
    + rewrite <- Hq, peek_poke_eq by done.
      apply isBitSet_reset_other; try apply bit_split.
      intros Hr. apply Hne. now apply same_bit.
    + now rewrite peek_poke_ne.
Qed.

Lemma bitmap_reset_in_first_sector
    (st : fs) (start num ibit : Z) (buf : buffer) :
  0 <= ibit ->
  ibit / 8 < SECTOR_SIZE ->
  1 <= num ->
  Disk_Read (the_disk st) start = Some buf ->
  bitmap_reset st start num ibit
  = Done (0, set_disk (<[Z.to_nat start := unmark buf ibit]> (the_disk st))
                      st).
Proof.
  intros Hbit Hfit Hnum Hread. unfold bitmap_reset.
  rewrite Z.quot_div_nonneg, Z.rem_mod_nonneg by lia.
  pose proof (Z.div_pos ibit 8 Hbit ltac:(lia)) as Hq.
  destruct (bit_split ibit) as [_ Hr].
  destruct (Z.ltb_spec (SECTOR_SIZE * num) (ibit / 8)); [nia |].
  rewrite reset_wind_small, Hread by lia. unfold guard.
  destruct (Z.leb_spec 0 (ibit mod 8)); [| lia].
  destruct (Z.ltb_spec (ibit mod 8) 8); [| lia].
  destruct (Z.leb_spec 0 (ibit / 8)); [| lia].
  destruct (Z.ltb_spec (ibit / 8) SECTOR_SIZE); [| lia]. simpl.
  now rewrite (Disk_Write_after_read _ _ buf).
Qed.

(** X18: [bitmap_reset] on a bit whose byte lies in the first sector of the
    bitmap returns 0, clears that bit in that sector, and leaves every
    other bit of the sector, the open-file table and [osErrno] as they
    were. *)
Theorem bitmap_reset_clears_bit
    (st : fs) (start num ibit : Z) (buf : buffer) :
  0 <= ibit ->
  ibit / 8 < SECTOR_SIZE ->
  ibit / 8 < Z.of_nat (length buf) ->
  1 <= num ->
  Disk_Read (the_disk st) start = Some buf ->
  exists st' buf',
    bitmap_reset st start num ibit = Done (0, st') /\
    Disk_Read (the_disk st') start = Some buf' /\
    bit_at buf' ibit = false /\
    (forall k, k <> ibit -> bit_at buf' k = bit_at buf k) /\
    open_files st' = open_files st /\ osErrno st' = osErrno st.
Proof.
  intros Hbit Hfit Hlen Hnum Hread.
  pose proof (Z.div_pos ibit 8 Hbit ltac:(lia)) as Hq.
  eexists. exists (unmark buf ibit).
  split; [apply (bitmap_reset_in_first_sector st start num ibit buf); done |].
  simpl.
  destruct (bit_at_unmark buf ibit ltac:(lia)) as [Hclear Hother].
  repeat split; try done.
  eapply Disk_Read_written. now apply (Disk_Write_after_read _ _ buf).
Qed.

(** X19: whatever bit it is asked to clear, [bitmap_reset] reads and
    writes the first sector of the bitmap only: every other sector of the
    disk and the open-file table are as before. *)
Theorem bitmap_reset_first_sector_only
    (st st' : fs) (start num ibit ret : Z) :
  bitmap_reset st start num ibit = Done (ret, st') ->
  open_files st' = open_files st /\
  (forall s, s <> start ->
     Disk_Read (the_disk st') s = Disk_Read (the_disk st) s).
Proof.
  unfold bitmap_reset. intros Hreset.
  destruct (_ <? _); [now injection Hreset as <- <- |].
  destruct (Disk_Read (the_disk st) start) as [buf |];
    [| now injection Hreset as <- <-].
  unfold guard in Hreset.
  destruct ((0 <=? Z.rem ibit 8) && (Z.rem ibit 8 <? 8)); simpl in Hreset;
    [| discriminate].
  destruct ((0 <=? _) && (_ <? SECTOR_SIZE)); simpl in Hreset;
    [| discriminate].
  destruct (Disk_Write _ _ _) as [d |] eqn:Hwrite;
    injection Hreset as <- <-; [| done].
  split; [reflexivity |]. simpl.
  now apply (Disk_Read_written _ _ _ _ Hwrite).
Qed.

(** X20: a bit index whose byte index equals [SECTOR_SIZE] passes the
    range test and the [while] loop of [bitmap_reset] unchanged, so the
    function indexes its sector buffer one past the end. *)
Theorem bitmap_reset_sector_boundary
    (st : fs) (start num ibit : Z) (buf : buffer) :
  0 < SECTOR_SIZE ->
  1 <= num ->
  8 * SECTOR_SIZE <= ibit < 8 * SECTOR_SIZE + 8 ->
  Disk_Read (the_disk st) start = Some buf ->
  bitmap_reset st start num ibit = Crash OutOfBounds.
Proof.
  intros Hpos Hnum Hbit Hread. unfold bitmap_reset.
  rewrite Z.quot_div_nonneg, Z.rem_mod_nonneg by lia.
  replace (ibit / 8) with SECTOR_SIZE
    by (apply Z.div_unique with (ibit - 8 * SECTOR_SIZE); lia).
  destruct (bit_split ibit) as [_ Hr].
  destruct (Z.ltb_spec (SECTOR_SIZE * num) SECTOR_SIZE); [nia |].
  rewrite reset_wind_small, Hread by lia. unfold guard.
  destruct (Z.leb_spec 0 (ibit mod 8)); [| lia].
  destruct (Z.ltb_spec (ibit mod 8) 8); [| lia].
  destruct (Z.leb_spec 0 SECTOR_SIZE); [| lia].
  destruct (Z.ltb_spec SECTOR_SIZE SECTOR_SIZE); [lia | reflexivity].
Qed.

(** X21: on a bitmap of one sector, [bitmap_reset] of the index that
    [bitmap_first_unused] has just returned gives every bit of the sector
    its old value back, and no other sector has changed. *)
Theorem bitmap_reset_undoes_first_unused
    (st : fs) (start nbits k : Z) (buf : buffer) :
  0 <= k < nbits ->
  nbits / 8 < SECTOR_SIZE ->
  nbits / 8 < Z.of_nat (length buf) ->
  Disk_Read (the_disk st) start = Some buf ->
  bit_at buf k = false ->
  (forall i, 0 <= i < k -> bit_at buf i = true) ->
  (bitmap_first_unused st start 1 nbits).1 = k /\
  exists st2 buf2,
    bitmap_reset (bitmap_first_unused st start 1 nbits).2 start 1 k
    = Done (0, st2) /\
    Disk_Read (the_disk st2) start = Some buf2 /\
    (forall i, bit_at buf2 i = bit_at buf i) /\
    (forall s, s <> start ->
       Disk_Read (the_disk st2) s = Disk_Read (the_disk st) s).
Proof.
  intros Hk Hfit Hlen Hread Hclear Hset.
  rewrite (bitmap_first_unused_first_clear st start nbits k buf) by done.
  simpl. split; [reflexivity |].
  pose proof (Disk_Write_after_read _ _ buf (mark buf k) Hread) as Hwrite.
  destruct (Disk_Read_written _ _ _ _ Hwrite) as [Hread1 Hother1].
  assert (Hk8 : 0 <= k / 8 <= nbits / 8).
  { split; [apply Z.div_pos; lia | apply Z.div_le_mono; lia]. }
  set (st1 := set_disk (<[Z.to_nat start := mark buf k]> (the_disk st)) st).
  pose proof (bitmap_reset_in_first_sector st1 start 1 k (mark buf k)
                ltac:(lia) ltac:(lia) ltac:(lia) Hread1) as Hreset.
  pose proof (Disk_Write_after_read _ _ _ (unmark (mark buf k) k) Hread1)
    as Hwrite2.
  destruct (Disk_Read_written _ _ _ _ Hwrite2) as [Hread2 Hother2].
  eexists. exists (unmark (mark buf k) k).
  split; [exact Hreset |]. split; [exact Hread2 |]. split.
  - intros i.
    assert (Hmarked : 0 <= k / 8 < Z.of_nat (length (mark buf k))).
    { unfold mark, poke, buffer in *.
      destruct (0 <=? k / 8); rewrite ?length_insert; lia. }
    destruct (bit_at_unmark (mark buf k) k Hmarked) as [Hc Ho].
    destruct (decide (i = k)) as [-> | Hne]; [congruence |].
    rewrite Ho by done. now apply bit_at_mark_other.
  - intros s Hs. simpl. rewrite Hother2 by done. now apply Hother1.
Qed.

End BitmapReset.

Section Boot.
Context `{G : Geometry}.


Lemma Disk_Write_unchecked_other (d : disk) (sector s : Z) (buf : buffer) :
  s <> sector ->
  Disk_Read (Disk_Write_unchecked d sector buf) s = Disk_Read d s.
Proof.
  intros Hne. unfold Disk_Write_unchecked.
  destruct (Disk_Write d sector buf) eqn:Hwrite; simpl; [| reflexivity].
  now apply (Disk_Read_written _ _ _ _ Hwrite).
Qed.

Lemma writes_elsewhere (writes : list (Z * buffer)) (s : Z) :
  forall d,
    Forall (fun w => w.1 <> s) writes ->
    Disk_Read (foldl (fun d w => Disk_Write_unchecked d w.1 w.2) d writes) s
    = Disk_Read d s.
Proof.
  induction writes as [| w rest IH]; intros d Hall; [reflexivity |].
  apply Forall_cons in Hall as [Hw Hrest]. simpl.
  rewrite IH by done. now apply Disk_Write_unchecked_other.
Qed.

Lemma bitmap_init_writes_from_start (start num nbits : Z) :
  0 <= nbits -> 0 < SECTOR_SIZE ->
  Forall (fun w => start <= w.1) (bitmap_init_writes start num nbits).
Proof.
  intros Hn Hpos. unfold bitmap_init_writes.
  pose proof (Z.div_pos nbits 8 Hn ltac:(lia)) as Hq8.
  rewrite (Z.quot_div_nonneg nbits 8) by lia.
  rewrite (Z.quot_div_nonneg (nbits / 8) SECTOR_SIZE) by lia.
  pose proof (Z.div_pos (nbits / 8) SECTOR_SIZE Hq8 Hpos) as Hq.
  apply Forall_app. split; [| apply Forall_cons; split].
  - apply Forall_fmap, Forall_forall. intros i Hi. simpl.
    apply elem_of_seqZ in Hi. lia.
  - simpl. lia.
  - apply Forall_fmap, Forall_forall. intros i Hi. simpl.
    apply elem_of_seqZ in Hi. lia.
Qed.

Lemma bitmap_init_keeps_below (d : disk) (start num nbits s : Z) :
  0 <= nbits -> 0 < SECTOR_SIZE -> s < start ->
  Disk_Read (bitmap_init d start num nbits) s = Disk_Read d s.
Proof.
  intros Hn Hpos Hs. unfold bitmap_init. apply writes_elsewhere.
  eapply Forall_impl; [now apply bitmap_init_writes_from_start |].
  simpl. intros w Hw. lia.
Qed.

Lemma format_inode_table_keeps_below (rows : list Z) (s : Z) :
  forall d d',
    Forall (fun i => 0 <= i) rows ->
    s < INODE_TABLE_START_SECTOR ->
    format_inode_table d rows = Some d' ->
    Disk_Read d' s = Disk_Read d s.
Proof.
  induction rows as [| i rest IH]; intros d d' Hrows Hs Hfmt; simpl in Hfmt.
  - now injection Hfmt as <-.
  - apply Forall_cons in Hrows as [Hi Hrest].
    destruct (Disk_Write d _ _) as [d1 |] eqn:Hwrite; [| discriminate].
    rewrite (IH d1 d') by done.
    apply (Disk_Read_written _ _ _ _ Hwrite). lia.
Qed.

Lemma magic_round_trip (n : nat) :
  (4 <= n)%nat ->
  get_int (set_int (replicate n 0) 0 OS_MAGIC) 0 mod 2 ^ 32 = OS_MAGIC.
Proof.
  intros Hn. do 4 (destruct n as [| n]; [lia |]). reflexivity.
Qed.

(** X23: the image [FS_Boot] formats carries the magic number in its
    superblock, so booting again from that image, with a backing file of
    the right length, succeeds. *)
Theorem FS_Boot_formatted_image_boots
    (st st' st2 : fs) (save_ok : bool) :
  4 <= SECTOR_SIZE ->
  1 <= SECTOR_BITMAP_START_SECTOR ->
  1 <= INODE_TABLE_START_SECTOR ->
  0 <= to_int DATABLOCK_START_SECTOR ->
  FS_Boot st true Load_cannot_open true = (0, st') ->
  check_magic (the_disk st') = true /\
  (FS_Boot st2 true (Load_ok (the_disk st') (SECTOR_SIZE * TOTAL_SECTORS))
           save_ok).1 = 0.
Proof.
  intros Hsize Hsb Hit Hdata Hboot.
  assert (Hmagic : check_magic (the_disk st') = true).
  { unfold FS_Boot in Hboot. cbn [negb] in Hboot.
    destruct (Disk_Write (the_disk (set_disk Disk_Init st))
                         SUPERBLOCK_START_SECTOR _) as [d0 |] eqn:Hsuper;
      [| discriminate].
    destruct (format_inode_table _ _) as [d3 |] eqn:Hfmt; [| discriminate].
    injection Hboot as <-. cbn [the_disk set_open_files set_disk].
    assert (Hrows : Forall (fun i => 0 <= i) (seqZ 0 INODE_TABLE_SECTORS)).
    { apply Forall_forall. intros i Hi. apply elem_of_seqZ in Hi. lia. }
    assert (Hzero : SUPERBLOCK_START_SECTOR < INODE_TABLE_START_SECTOR)
      by (unfold SUPERBLOCK_START_SECTOR; lia).
    unfold check_magic.
    rewrite (format_inode_table_keeps_below _ _ _ _ Hrows Hzero Hfmt).
    rewrite (bitmap_init_keeps_below _ SECTOR_BITMAP_START_SECTOR)
      by (unfold SUPERBLOCK_START_SECTOR; lia).
    rewrite (bitmap_init_keeps_below _ INODE_BITMAP_START_SECTOR)
      by (unfold SUPERBLOCK_START_SECTOR, INODE_BITMAP_START_SECTOR; lia).
    destruct (Disk_Read_written _ _ _ _ Hsuper) as [-> _].
    apply Z.eqb_eq, magic_round_trip. lia. }
  split; [exact Hmagic |].
  unfold FS_Boot. simpl. rewrite Z.eqb_refl. simpl. now rewrite Hmagic.
Qed.

Lemma length_fill (buf : buffer) (lo hi v : Z) :
  length (fill buf lo hi v) = length buf.
Proof.
  unfold fill. generalize (seqZ lo (hi - lo)). intros l. revert buf.
  induction l as [| i l IH]; intros buf; simpl; [reflexivity |].
  rewrite IH. unfold poke, buffer.
  destruct (0 <=? i); [apply length_insert | reflexivity].
Qed.

Lemma peek_fill_steps (l : list Z) (v : Z) :
  forall buf i,
    peek (foldl (fun b j => poke b j v) buf l) i
    = if bool_decide (i ∈ l) && in_buf buf i then v else peek buf i.
Proof.
  induction l as [| j l IH]; intros buf i; cbn [foldl].
  - case_bool_decide as Hin; [| reflexivity]. now apply not_elem_of_nil in Hin.
  - rewrite IH.
    assert (Hlen : in_buf (poke buf j v) i = in_buf buf i).
    { unfold in_buf, poke, buffer.
      destruct (0 <=? j); rewrite ?length_insert; reflexivity. }
    rewrite Hlen.
    destruct (decide (i = j)) as [-> | Hne].
    + rewrite (bool_decide_eq_true_2 (j ∈ j :: l)) by apply list_elem_of_here.
      destruct (in_buf buf j) eqn:Hin.
      * case_bool_decide; simpl; [reflexivity |].
        apply peek_poke_eq. unfold in_buf in Hin. lia.
      * rewrite !andb_false_r. unfold peek, poke, in_buf, buffer in *.
        destruct (Z.leb_spec 0 j); [| reflexivity]. simpl in *.
        rewrite list_insert_ge by lia. reflexivity.
    + rewrite peek_poke_ne by done.
      destruct (decide (i ∈ l)) as [Hin | Hnot].
      * rewrite !bool_decide_eq_true_2; [reflexivity | | done].
        now apply list_elem_of_further.
      * rewrite !bool_decide_eq_false_2; [reflexivity | | done].
        intros Hin. apply elem_of_cons in Hin as [? | ?]; done.
Qed.

Lemma peek_fill (buf : buffer) (lo hi v i : Z) :
  0 <= i < Z.of_nat (length buf) ->
  peek (fill buf lo hi v) i
  = if (lo <=? i) && (i <? hi) then v else peek buf i.
Proof.
  intros Hi. unfold fill. rewrite peek_fill_steps.
  assert (Hin : in_buf buf i = true) by (unfold in_buf; lia).
  rewrite Hin, andb_true_r.
  destruct (Z.leb_spec lo i), (Z.ltb_spec i hi); simpl;
    try (rewrite bool_decide_eq_false_2;
         [reflexivity | rewrite elem_of_seqZ; lia]).
  rewrite bool_decide_eq_true_2; [reflexivity | rewrite elem_of_seqZ; lia].
Qed.

Lemma peek_replicate (n : nat) (v i : Z) :
  0 <= i < Z.of_nat n -> peek (replicate n v) i = v.
Proof.
  intros Hi. unfold peek, buffer. destruct (Z.leb_spec 0 i); [| lia].
  rewrite lookup_replicate_2 by lia. reflexivity.
Qed.

Lemma prefix_byte_bits (r j : Z) :
  0 <= r < 8 -> 0 <= j < 8 ->
  isBitSet (peek [0x0; 0x80; 0xC0; 0xE0; 0xF0; 0xF8; 0xFC; 0xFE] r) j
  = (j <? r).
Proof.
  intros Hr Hj. apply bit_index_cases in Hr, Hj.
  repeat (destruct Hr as [-> | Hr]); subst;
    repeat (destruct Hj as [-> | Hj]); subst; reflexivity.
Qed.

Lemma full_byte_bits (j : Z) : 0 <= j < 8 -> isBitSet 0xff j = true.
Proof.
  intros Hj. apply bit_index_cases in Hj.
  repeat (destruct Hj as [-> | Hj]); subst; reflexivity.
Qed.

Lemma empty_byte_bits (j : Z) : isBitSet 0 j = false.
Proof. reflexivity. Qed.

(** X24: for a count [nbits] that fits one sector, [bitmap_init] leaves
    in the first sector of the bitmap exactly the first [nbits] bits set,
    most significant bit of each byte first, and every later bit of that
    sector clear. *)
Theorem bitmap_init_first_sector
    (d : disk) (start num nbits : Z) (old : buffer) :
  0 <= nbits ->
  nbits / 8 < SECTOR_SIZE ->
  Disk_Read d start = Some old ->
  exists buf,
    Disk_Read (bitmap_init d start num nbits) start = Some buf /\
    forall k, 0 <= k < 8 * SECTOR_SIZE -> bit_at buf k = (k <? nbits).
Proof.
  intros Hn Hfit Hread.
  pose proof (Z.div_pos nbits 8 Hn ltac:(lia)) as Hq.
  destruct (bit_split nbits) as [Hdm Hr].
  unfold bitmap_init, bitmap_init_writes.
  rewrite (Z.quot_div_nonneg nbits 8) by lia.
  rewrite (Z.quot_div_nonneg (nbits / 8) SECTOR_SIZE) by lia.
  rewrite (Z.rem_mod_nonneg (nbits / 8) SECTOR_SIZE) by lia.
  rewrite (Z.rem_mod_nonneg nbits 8) by lia.
  rewrite (Z.div_small (nbits / 8)), (Z.mod_small (nbits / 8)) by lia.
  rewrite seqZ_nil by lia. simpl app. rewrite Z.add_0_r.
  cbn [foldl fst snd].
  set (buf := fill (poke (replicate (Z.to_nat SECTOR_SIZE) 255) (nbits / 8)
                         (peek [0; 128; 192; 224; 240; 248; 252; 254]
                               (nbits mod 8)))
                   (nbits / 8 + 1) SECTOR_SIZE 0).
  exists buf. split.
  - rewrite writes_elsewhere.
    + unfold Disk_Write_unchecked.
      rewrite (Disk_Write_after_read _ _ old) by done. simpl.
      eapply Disk_Read_written. now apply (Disk_Write_after_read _ _ old).
    + apply Forall_fmap, Forall_forall. intros i Hi. simpl.
      apply elem_of_seqZ in Hi. lia.
  - intros k Hk.
    assert (Hlen : length (poke (replicate (Z.to_nat SECTOR_SIZE) 255)
                                (nbits / 8)
                                (peek [0; 128; 192; 224; 240; 248; 252; 254]
                                      (nbits mod 8)))
                   = Z.to_nat SECTOR_SIZE).
    { unfold poke, buffer. destruct (0 <=? nbits / 8);
        rewrite ?length_insert, length_replicate; reflexivity. }
    destruct (bit_split k) as [Hkdm Hkr].
    assert (Hkq : 0 <= k / 8 < SECTOR_SIZE)
      by (split; [apply Z.div_pos; lia | apply Z.div_lt_upper_bound; lia]).
    unfold bit_at, buf. rewrite peek_fill by (rewrite Hlen; lia).
    destruct (Z.leb_spec (nbits / 8 + 1) (k / 8)).
    + destruct (Z.ltb_spec (k / 8) SECTOR_SIZE); [| lia]. simpl.
      rewrite empty_byte_bits. symmetry. apply Z.ltb_ge. lia.
    + simpl. destruct (decide (k / 8 = nbits / 8)) as [Heq | Hne].
      * rewrite Heq, peek_poke_eq
          by (unfold buffer; rewrite length_replicate; lia).
        rewrite prefix_byte_bits by lia.
        destruct (Z.ltb_spec (k mod 8) (nbits mod 8)); symmetry;
          [apply Z.ltb_lt | apply Z.ltb_ge]; lia.
      * rewrite peek_poke_ne, peek_replicate by lia.
        rewrite full_byte_bits by lia. symmetry. apply Z.ltb_lt. lia.
Qed.

End Boot.

Section Reading.
Context `{G : Geometry}.

(** Rewriting a slot with its own inode number and size changes neither
    field anywhere in the table. *)
Lemma set_slot_keeps_fields (st : fs) (fd i : Z) (f : open_file_t) :
  inode f = inode (slot st fd) ->
  size f = size (slot st fd) ->
  inode (slot (set_slot st fd f) i) = inode (slot st i) /\
  size (slot (set_slot st fd f) i) = size (slot st i).
Proof.
  intros Hinode Hsize. unfold slot, set_slot in *. simpl.
  rewrite !nth_lookup in *.
  destruct (decide (Z.to_nat i = Z.to_nat fd)) as [-> | Hne].
  - destruct (decide (Z.to_nat fd < length (open_files st))%nat).
    + rewrite list_lookup_insert_eq by done. simpl. done.
    + rewrite list_insert_ge by lia. done.
  - rewrite list_lookup_insert_ne by done. done.
Qed.

Lemma chunk_bounds (left cpis : Z) :
  0 <= cpis -> 0 < SECTOR_SIZE -> 0 <= left ->
  chunk left cpis <= left /\ chunk left cpis <= SECTOR_SIZE.
Proof.
  intros Hc Hs Hl. unfold chunk.
  destruct (Z.ltb_spec SECTOR_SIZE left); lia.
Qed.

Lemma length_slice (buf : buffer) (off n : Z) :
  Z.of_nat (length (slice buf off n)) <= Z.max 0 n.
Proof.
  unfold slice. rewrite length_take. lia.
Qed.

(** X25: a [File_Read] of [n >= 0] bytes that returns hands back at most
    [n] bytes and at most one sector, copies no more bytes than it
    reports, and changes neither the disk nor the inode number or the
    size of any slot of the table. *)
Theorem File_Read_bounds
    (st st' : fs) (fd n ret : Z) (copied : list Z) :
  0 <= n ->
  0 < SECTOR_SIZE ->
  File_Read st fd n = Done (ret, copied, st') ->
  ret <= n /\ ret <= SECTOR_SIZE /\
  Z.of_nat (length copied) <= Z.max 0 ret /\
  the_disk st' = the_disk st /\
  forall i, inode (slot st' i) = inode (slot st i) /\
            size (slot st' i) = size (slot st i).
Proof.
  intros Hn Hss. unfold File_Read.
  assert (Hsame : forall r e,
            r <= 0 ->
            Done (r, [], e) = Done (ret, copied, st') ->
            the_disk e = the_disk st -> open_files e = open_files st ->
            ret <= n /\ ret <= SECTOR_SIZE /\
            Z.of_nat (length copied) <= Z.max 0 ret /\
            the_disk st' = the_disk st /\
            forall i, inode (slot st' i) = inode (slot st i) /\
                      size (slot st' i) = size (slot st i)).
  { intros r e Hr [= <- <- <-] Hdisk Htable.
    repeat split; try (simpl; lia); try done; unfold slot; now rewrite Htable. }
  destruct (is_file_open st fd); simpl;
    [| intros Hres; refine (Hsame _ _ _ Hres _ _); [lia | reflexivity | reflexivity]].
  unfold guard. destruct (in_table fd); simpl; [| discriminate].
  destruct (pos (slot st fd) =? size (slot st fd));
    [intros Hres; refine (Hsame _ _ _ Hres _ _); [lia | reflexivity | reflexivity] |].
  destruct (Disk_Read _ _) as [inode_buffer |];
    [| intros Hres; refine (Hsame _ _ _ Hres _ _); [lia | reflexivity | reflexivity]].
  destruct (inode_ptr _ _) as [child |]; simpl; [| discriminate].
  destruct ((0 <? n) && (pos (slot st fd) <? size (slot st fd)));
    [| intros Hres; refine (Hsame _ _ _ Hres _ _); [lia | reflexivity | reflexivity]].
  destruct (in_data _); simpl; [| discriminate].
  destruct ((0 <=? chunk n (Z.rem (pos (slot st fd)) SECTOR_SIZE))
            && (0 <=? Z.rem (pos (slot st fd)) SECTOR_SIZE)) eqn:Hguard;
    simpl; [| discriminate].
  apply andb_true_iff in Hguard as [Hchunk Hcpis].
  apply Z.leb_le in Hchunk, Hcpis.
  destruct (chunk_bounds n (Z.rem (pos (slot st fd)) SECTOR_SIZE))
    as [Hle_n Hle_s]; try done.
  assert (Hfields : forall p' i,
            inode (slot (set_slot st fd
                           {| inode := inode (slot st fd);
                              size := size (slot st fd); pos := p' |}) i)
            = inode (slot st i) /\
            size (slot (set_slot st fd
                          {| inode := inode (slot st fd);
                             size := size (slot st fd); pos := p' |}) i)
            = size (slot st i)).
  { intros p' i. now apply set_slot_keeps_fields. }
  destruct (Disk_Read (the_disk st) _) as [data_buf |]; simpl.
  - intros [= <- <- <-].
    pose proof (length_slice data_buf
                  (Z.rem (pos (slot st fd)) SECTOR_SIZE)
                  (chunk n (Z.rem (pos (slot st fd)) SECTOR_SIZE))).
    split; [lia |]. split; [lia |]. split; [lia |]. split; [reflexivity |].
    apply Hfields.
  - destruct (chunk n _ =? 0) eqn:Hzero; simpl; [| discriminate].
    intros [= <- <- <-].
    split; [lia |]. split; [lia |]. split; [simpl; lia |].
    split; [reflexivity |]. apply Hfields.
Qed.







End Reading.

Section Writing.
Context `{G : Geometry}.

Lemma bitmap_first_unused_keeps_table (st : fs) (start num nbits : Z) :
  open_files (bitmap_first_unused st start num nbits).2 = open_files st.
Proof.
  refine (proj1 (bitmap_scan_sectors_keeps _ _ _ _ _ _ _)). lia.
Qed.

Lemma allocate_sectors_keeps_table (idxs : list Z) :
  forall (st st' : fs) (buf : buffer) (child : Z) (grown : option buffer),
    allocate_sectors st buf child idxs = Done (st', grown) ->
    open_files st' = open_files st.
Proof.
  induction idxs as [| i rest IH]; intros st st' buf child grown;
    cbn [allocate_sectors].
  - now intros [= <- _].
  - pose proof (bitmap_first_unused_keeps_table st SECTOR_BITMAP_START_SECTOR
                  SECTOR_BITMAP_SECTORS SECTOR_BITMAP_SIZE) as Hnext.
    destruct (bitmap_first_unused _ _ _ _) as [next st1]. simpl in Hnext.
    destruct (next <? 0).
    + now intros [= <- _].
    + unfold guard. destruct (in_data i); cbn [mbind outcome_bind];
        [| discriminate].
      intros Hrest. apply IH in Hrest. congruence.
Qed.

(** The copy loop never writes more than it was asked to, and moves the
    position by what it wrote. *)
Lemma write_sectors_progress (inode_buffer : buffer) (child : Z)
    (data : list Z) (sectors : list Z) :
  0 < SECTOR_SIZE ->
  forall (d d' : disk) (left cpis pos_ in_pos left' pos' : Z),
    0 <= left ->
    write_sectors d inode_buffer child data sectors left cpis pos_ in_pos
    = Done (d', left', pos') ->
    0 <= left' <= left /\ pos' - pos_ = left - left'.
Proof.
  intros Hss.
  induction sectors as [| s rest IH];
    intros d d' left cpis pos_ in_pos left' pos' Hleft;
    cbn [write_sectors].
  - intros [= _ <- <-]. lia.
  - destruct (Z.ltb_spec 0 left); [| intros [= _ <- <-]; lia].
    unfold guard. destruct (in_data s); cbn [mbind outcome_bind];
      [| discriminate].
    destruct (_ && _) eqn:Hguard; cbn [mbind outcome_bind]; [| discriminate].
    apply andb_true_iff in Hguard as [Hguard _].
    apply andb_true_iff in Hguard as [Hguard _].
    apply andb_true_iff in Hguard as [Hchunk Hcpis].
    apply Z.leb_le in Hchunk, Hcpis.
    destruct (chunk_bounds left cpis) as [Hle _]; try done; try lia.
    intros Hrest. apply IH in Hrest; lia.
Qed.

(** X27: a [File_Write] of [n >= 0] bytes that does not fail returns at
    most [n], and touches the open-file table in the slot of its
    descriptor alone: the position moves by the count returned, and the
    size recorded becomes the old position plus [n]. *)
Theorem File_Write_table
    (st st' : fs) (fd n ret : Z) (data : list Z) :
  0 < SECTOR_SIZE ->
  0 <= n ->
  0 <= ret ->
  File_Write st fd data n = Done (ret, st') ->
  ret <= n /\
  open_files st'
  = <[Z.to_nat fd := {| inode := inode (slot st fd);
                        size := pos (slot st fd) + n;
                        pos := pos (slot st fd) + ret |}]> (open_files st).
Proof.
  intros Hss Hn Hret. unfold File_Write.
  destruct (is_file_open st fd); cbn [negb]; [| intros [= <- _]; lia].
  unfold guard. destruct (in_table fd); cbn [mbind outcome_bind];
    [| discriminate].
  destruct (in_int _); cbn [mbind outcome_bind]; [| discriminate].
  destruct (_ <? _); [intros [= <- _]; lia |].
  destruct (Disk_Read _ _) as [inode_buffer |]; [| intros [= <- _]; lia].
  destruct (inode_ptr _ _) as [child |]; cbn [mbind outcome_bind];
    [| discriminate].
  cbv zeta.
  destruct (allocate_sectors _ _ _ _) as [[st1 grown] |] eqn:Halloc;
    cbn [mbind outcome_bind]; [| discriminate].
  apply allocate_sectors_keeps_table in Halloc.
  destruct grown as [grown_buffer |]; [| intros [= <- _]; lia].
  destruct (write_sectors _ _ _ _ _ _ _ _ _) as [[[d left_] new_pos] |]
    eqn:Hwrite; cbn [mbind outcome_bind]; [| discriminate].
  apply write_sectors_progress in Hwrite; try done.
  destruct Hwrite as [Hleft Hpos].
  intros [= <- <-]. split; [lia |].
  unfold set_slot, set_open_files, set_disk. cbn [open_files].
  rewrite Halloc. do 2 f_equal. lia.
Qed.

End Writing.

Section Validation.
Context `{G : Geometry}.

(** [names_inode] reads the open-file table alone. *)
Lemma names_inode_same_table (st st2 : fs) (x : Z) :
  open_files st2 = open_files st -> names_inode st2 x <-> names_inode st x.
Proof.
  intros Htable. unfold names_inode, slot. now rewrite Htable.
Qed.

(** Past the check, [File_Read] works on slot [fd]. *)
Lemma File_Read_reads_slot (st : fs) (fd n : Z) :
  is_file_open st fd = true -> in_table fd = true -> reads_slot st fd n.
Proof.
  intros Hopen Hfd. unfold reads_slot. cbv zeta.
  split; [| split].
  - now apply File_Read_at_end_of_file.
  - intros inode_buffer data_buf child Hss Hn Hpos Hsec Hchunk
      Hread Hptr Hdata.
    unfold File_Read. rewrite Hopen, Hfd. cbn [negb guard mbind outcome_bind].
    destruct (Z.eqb_spec (pos (slot st fd)) (size (slot st fd))); [lia |].
    rewrite Hread, Hptr. cbn [mbind outcome_bind].
    destruct (Z.ltb_spec 0 n); [| lia].
    destruct (Z.ltb_spec (pos (slot st fd)) (size (slot st fd))); [| lia].
    cbn [andb]. unfold in_data.
    pose proof (Z.quot_pos (pos (slot st fd)) SECTOR_SIZE) as Hquot.
    pose proof (Z.rem_nonneg (pos (slot st fd)) SECTOR_SIZE) as Hrem.
    destruct (Z.leb_spec 0 (pos (slot st fd) ÷ SECTOR_SIZE)); [| lia].
    destruct (Z.ltb_spec (pos (slot st fd) ÷ SECTOR_SIZE)
                MAX_SECTORS_PER_FILE); [| lia].
    cbn [andb guard mbind outcome_bind].
    destruct (Z.leb_spec 0 (chunk n (Z.rem (pos (slot st fd)) SECTOR_SIZE)));
      [| lia].
    destruct (Z.leb_spec 0 (Z.rem (pos (slot st fd)) SECTOR_SIZE)); [| lia].
    cbn [andb guard mbind outcome_bind].
    rewrite Hdata. reflexivity.
  - intros Hbad.
    destruct (decide (osErrno st = Some E_BAD_FD)) as [| Hclean]; [done |].
    now destruct (File_Read_passes st fd n Hclean Hopen).
Qed.

(** Past the check, [File_Write] works on slot [fd]. *)
Lemma File_Write_writes_slot (st : fs) (fd n : Z) (data : list Z) :
  is_file_open st fd = true -> in_table fd = true ->
  writes_slot st fd data n.
Proof.
  intros Hopen Hfd. unfold writes_slot. cbv zeta.
  split; [| split].
  - intros Hint Hbig. now apply File_Write_too_big.
  - intros inode_buffer grown child left_ new_pos st1 d Hint Hfits
      Hread Hptr Halloc Hwrite.
    unfold File_Write.
    rewrite Hopen, Hfd, Hint. cbn [negb guard mbind outcome_bind].
    destruct (Z.ltb_spec (MAX_SECTORS_PER_FILE * SECTOR_SIZE)
                (pos (slot st fd) + n)); [lia |].
    rewrite Hread, Hptr. cbn [mbind outcome_bind].
    rewrite Halloc. cbn [mbind outcome_bind].
    rewrite Hwrite. reflexivity.
  - intros Hbad.
    destruct (decide (osErrno st = Some E_BAD_FD)) as [| Hclean]; [done |].
    now destruct (File_Write_passes st fd data n Hclean Hopen).
Qed.

(** C10: [File_Read] and [File_Write] validate the descriptor by searching
    the open-file table for an entry whose inode field equals the value of
    [fd], not by looking at slot [fd].  When no entry names inode [fd] the
    call returns -1 with [E_BAD_FD]; when some entry does, the call goes on
    to work on slot [fd] ([reads_slot], [writes_slot]), and indexes past
    the table when [fd] lies outside it.  The check depends on the table
    alone: every state with this table is turned away with [E_BAD_FD]
    exactly when no entry names inode [fd].  In particular a free slot
    (inode 0) lets a call with [fd = 0] through whatever slot 0 holds, and
    a call on an open slot [fd] is turned away when no entry's inode
    number equals [fd]. *)
Theorem descriptor_checked_by_inode_number
    (st : fs) (fd n : Z) (data : list Z) :
  (~ names_inode st fd ->
     File_Read st fd n = Done (-1, [], set_errno E_BAD_FD st) /\
     File_Write st fd data n = Done (-1, set_errno E_BAD_FD st)) /\
  (names_inode st fd ->
     if in_table fd
     then reads_slot st fd n /\ writes_slot st fd data n
     else File_Read st fd n = Crash OutOfBounds /\
          File_Write st fd data n = Crash OutOfBounds) /\
  ((forall st2, open_files st2 = open_files st ->
      bad_fd (File_Read st2 fd n)) <-> ~ names_inode st fd) /\
  ((forall st2, open_files st2 = open_files st ->
      bad_fd (File_Write st2 fd data n)) <-> ~ names_inode st fd) /\
  (forall i, 0 <= i < MAX_OPEN_FILES -> inode (slot st i) = 0 ->
     reads_slot st 0 n /\ writes_slot st 0 data n) /\
  (0 < inode (slot st fd) ->
   (forall i, 0 <= i < MAX_OPEN_FILES -> inode (slot st i) <> fd) ->
   File_Read st fd n = Done (-1, [], set_errno E_BAD_FD st) /\
   File_Write st fd data n = Done (-1, set_errno E_BAD_FD st)).
Proof.
  assert (Hrej : forall s x, ~ names_inode s x ->
            File_Read s x n = Done (-1, [], set_errno E_BAD_FD s) /\
            File_Write s x data n = Done (-1, set_errno E_BAD_FD s)).
  { intros s x Hx. apply is_file_open_false in Hx.
    unfold File_Read, File_Write. now rewrite Hx. }
  assert (Hpass : forall x, names_inode st x -> in_table x = true ->
            reads_slot st x n /\ writes_slot st x data n).
  { intros x Hx Hin. apply is_file_open_iff in Hx. split.
    - now apply File_Read_reads_slot.
    - now apply File_Write_writes_slot. }
  set (clean := {| the_disk := the_disk st; open_files := open_files st;
                   osErrno := None |}).
  assert (Hclean : forall x, names_inode st x ->
            ~ bad_fd (File_Read clean x n) /\
            ~ bad_fd (File_Write clean x data n)).
  { intros x Hx.
    apply (names_inode_same_table st clean x eq_refl), is_file_open_iff in Hx.
    split.
    - now apply File_Read_passes.
    - now apply File_Write_passes. }
  split; [apply Hrej |]. split.
  { intros Hx. destruct (in_table fd) eqn:Hin; [now apply Hpass |].
    apply is_file_open_iff in Hx.
    unfold File_Read, File_Write. now rewrite Hx, Hin. }
  split.
  { split.
    - intros Hall Hx. destruct (Hclean fd Hx) as [Hr _].
      now apply Hr, Hall.
    - intros Hno st2 Htable.
      destruct (Hrej st2 fd) as [-> _]; [| reflexivity].
      intros Hx. now apply Hno, (names_inode_same_table st st2 fd). }
  split.
  { split.
    - intros Hall Hx. destruct (Hclean fd Hx) as [_ Hw].
      now apply Hw, Hall.
    - intros Hno st2 Htable.
      destruct (Hrej st2 fd) as [_ ->]; [| reflexivity].
      intros Hx. now apply Hno, (names_inode_same_table st st2 fd). }
  split.
  { intros i Hi Hfree. apply Hpass; [| reflexivity]. now exists i. }
  intros _ Hno. apply Hrej. intros (i & Hi & Hfd). now apply (Hno i).
Qed.

End Validation.

(** * The theorems at work on the small geometry

    Each theorem above that has a premise is applied here to a state of the
    small scenarios, its premises settled by running the model. *)

(** A check over the numbers below [n], run as a program, holds of each. *)
Lemma checked_below (P : Z -> bool) (n : Z) :
  forallb P (seqZ 0 n) = true -> forall k, 0 <= k < n -> P k = true.
Proof.
  intros Hall k Hk. rewrite forallb_forall in Hall.
  apply Hall, list_elem_of_In, elem_of_seqZ. lia.
Qed.


Section SmallImage.
#[local] Existing Instance small_geometry.

Ltac run := vm_compute; first [reflexivity | discriminate].

(** With slots 0 and 1 in use and slot 2 free the next descriptor is 2. *)
Lemma new_file_fd_lowest_free_witness : new_file_fd nearly_full = 2.
Proof.
  apply (new_file_fd_lowest_free nearly_full 2).
  - split; run.
  - run.
  - intros i Hi.
    refine (proj1 (Z.ltb_lt _ _)
              (checked_below (fun i => 0 <? inode (slot nearly_full i)) 2
                             _ i Hi)).
    run.
Defined.

(** Opening on the full table. *)
Lemma File_Open_table_full_witness :
  File_Open busy_table "/g"
  = Done (-1, set_errno E_TOO_MANY_OPEN_FILES busy_table).
Proof.
  apply (File_Open_table_full busy_table "/g").
  intros i Hi.
  refine (proj1 (Z.ltb_lt _ _)
            (checked_below (fun i => 0 <? inode (slot busy_table i))
                           MAX_OPEN_FILES _ i Hi)).
  run.
Defined.

(** Opening [/g] on the small image takes descriptor 0. *)
Lemma File_Open_success_witness :
  0 = new_file_fd tiny_tree /\ the_disk tiny_open = the_disk tiny_tree.
Proof.
  assert (Hrun : File_Open tiny_tree "/g" = Done (0, tiny_open)) by run.
  destruct (File_Open_success tiny_tree tiny_open "/g" 0 Hrun)
    as (Hfd & _ & Hdisk & _); [lia |].
  split; [exact Hfd | exact Hdisk].
Defined.

(** Closing the one open descriptor. *)
Lemma File_Close_frees_slot_witness :
  exists st',
    File_Close one_open 2 = Done (0, st') /\
    inode (slot st' 2) = 0 /\
    0 <= new_file_fd st' <= 2 /\
    (forall i, 0 <= i -> i <> 2 -> slot st' i = slot one_open i) /\
    the_disk st' = the_disk one_open /\ osErrno st' = osErrno one_open.
Proof.
  apply (File_Close_frees_slot one_open 2); run.
Defined.

(** Seeking to 5 in a file of 10 bytes. *)
Lemma File_Seek_in_table_witness :
  File_Seek one_open 2 5
  = Done (5, set_slot one_open 2 {| inode := 7; size := 10; pos := 5 |}).
Proof.
  rewrite (File_Seek_in_table one_open 2 5) by run.
  reflexivity.
Defined.

(** Doubled and trailing slashes on the small image. *)
Lemma follow_path_same_components_witness :
  follow_path (the_disk tiny_tree) "/d/f"
  = follow_path (the_disk tiny_tree) "//d///f/".
Proof.
  apply (follow_path_same_components (the_disk tiny_tree) "/d/f" "//d///f/"
           [100; 47; 102] [47; 100; 47; 47; 47; 102; 47]); run.
Defined.

(** A path whose last component holds an exclamation mark. *)
Lemma follow_path_illegal_component_witness :
  exists r,
    follow_path (the_disk tiny_tree) "/d/f!" = Done r /\
    fp_ret r = -1 /\ fp_last_inode r = None.
Proof.
  eassert (Hrun : follow_path (the_disk tiny_tree) "/d/f!" = Done _) by run.
  eexists. split; [exact Hrun |].
  apply (follow_path_illegal_component (the_disk tiny_tree) "/d/f!"
           [100; 47; 102; 33] _ eq_refl); [| exact Hrun].
  apply Exists_exists. exists [102; 33]. split; [| run].
  vm_compute. apply list_elem_of_In. simpl. tauto.
Defined.

(** [Dir_Size] of the same path. *)
Lemma illegal_component_rejected_witness :
  crash_or (Dir_Size tiny_tree "/d/f!")
           (-1, set_errno E_NO_SUCH_DIR tiny_tree).
Proof.
  refine (proj1 (proj2 (proj2 (proj2
            (illegal_component_rejected tiny_tree "/d/f!" [100; 47; 102; 33]
               0 10 eq_refl _))))).
  apply Exists_exists. exists [102; 33]. split; [| run].
  vm_compute. apply list_elem_of_In. simpl. tauto.
Defined.

(** Creating [/g] a second time. *)
Lemma create_existing_name_witness :
  create_file_or_directory tiny_tree 0 "/g"
  = Done (-1, set_errno E_CREATE tiny_tree).
Proof.
  eassert (Hrun : follow_path (the_disk tiny_tree) "/g" = Done _) by run.
  apply (create_existing_name tiny_tree 0 "/g" _ 3 Hrun); run.
Defined.

(** [/d] holds a file. *)
Lemma Dir_Unlink_refused_witness :
  Dir_Unlink tiny_tree "/d"
  = Done (-1, set_errno E_DIR_NOT_EMPTY tiny_tree).
Proof.
  eassert (Hrun : follow_path (the_disk tiny_tree) "/d" = Done _) by run.
  eassert (Hread : Disk_Read (the_disk tiny_tree) (inode_sector_of 1)
                   = Some _) by run.
  eassert (Hptr : inode_ptr (inode_sector_of 1) 1 = Done _) by run.
  refine (Dir_Unlink_refused tiny_tree "/d" _ 1 _ _ Hrun _ _ _ Hread Hptr _);
    [run | run | run |].
  right. run.
Defined.

(** [/d] is a directory. *)
Lemma File_Unlink_not_a_file_witness :
  File_Unlink tiny_tree "/d" = Done (-1, set_errno E_GENERAL tiny_tree).
Proof.
  eassert (Hrun : follow_path (the_disk tiny_tree) "/d" = Done _) by run.
  eassert (Hread : Disk_Read (the_disk tiny_tree) (inode_sector_of 1)
                   = Some _) by run.
  eassert (Hptr : inode_ptr (inode_sector_of 1) 1 = Done _) by run.
  refine (File_Unlink_not_a_file tiny_tree "/d" _ 1 _ _ Hrun _ _ _ _
            Hread Hptr _); run.
Defined.

(** [/d] holds one entry of 20 bytes. *)
Lemma Dir_Size_directory_witness :
  exists n, Dir_Size tiny_tree "/d" = Done (n, tiny_tree) /\ n = 20.
Proof.
  eassert (Hrun : follow_path (the_disk tiny_tree) "/d" = Done _) by run.
  eassert (Hread : Disk_Read (the_disk tiny_tree) (inode_sector_of 1)
                   = Some _) by run.
  eassert (Hptr : inode_ptr (inode_sector_of 1) 1 = Done _) by run.
  eexists. split.
  - refine (Dir_Size_directory tiny_tree "/d" _ 1 _ _ Hrun _ _ _
              Hread Hptr _ _); [run | run | run | run | split; run].
  - run.
Defined.

(** [/g] is a file. *)
Lemma Dir_Size_not_a_directory_witness :
  Dir_Size tiny_tree "/g" = Done (-1, tiny_tree).
Proof.
  eassert (Hrun : follow_path (the_disk tiny_tree) "/g" = Done _) by run.
  eassert (Hread : Disk_Read (the_disk tiny_tree) (inode_sector_of 3)
                   = Some _) by run.
  eassert (Hptr : inode_ptr (inode_sector_of 3) 3 = Done _) by run.
  refine (proj2 (Dir_Size_not_a_directory tiny_tree "/g" _ 3 Hrun _ _)
                _ _ _ Hread Hptr _); run.
Defined.

Ltac all_below n P :=
  let k := fresh "k" in let Hk := fresh "Hk" in
  intros k Hk; refine (checked_below P n _ k Hk); run.

(** The first clear bit is bit 8 of the second sector. *)
Lemma bitmap_first_unused_in_sector_witness :
  (bitmap_first_unused two_bitmaps 0 2 16).1 = 24.
Proof.
  refine (f_equal fst
            (bitmap_first_unused_in_sector two_bitmaps 0 2 16 1 8
               (255 :: 127 :: replicate 62 0) _ _ _ _ _ _ _)).
  - lia.
  - run.
  - lia.
  - intros j Hj. assert (j = 0) as -> by lia.
    exists (replicate 64 255). split; [run |].
    all_below 16 (bit_at (replicate 64 255)).
  - run.
  - run.
  - all_below 8 (bit_at (255 :: 127 :: replicate 62 0)).
Defined.

(** Two full sectors. *)
Lemma bitmap_first_unused_exhausted_witness :
  bitmap_first_unused full_bitmaps 0 2 16 = (-1, full_bitmaps).
Proof.
  apply (bitmap_first_unused_exhausted full_bitmaps 0 2 16).
  - lia.
  - run.
  - intros j Hj. exists (replicate 64 255).
    assert (j = 0 \/ j = 1) as [-> | ->] by lia;
      (split; [run | all_below 16 (bit_at (replicate 64 255))]).
Defined.

(** Clearing bit 3 of the first sector. *)
Lemma bitmap_reset_clears_bit_witness :
  exists st' buf',
    bitmap_reset two_bitmaps 0 2 3 = Done (0, st') /\
    Disk_Read (the_disk st') 0 = Some buf' /\
    bit_at buf' 3 = false /\
    (forall k, k <> 3 -> bit_at buf' k = bit_at (replicate 64 255) k) /\
    open_files st' = open_files two_bitmaps /\
    osErrno st' = osErrno two_bitmaps.
Proof.
  apply (bitmap_reset_clears_bit two_bitmaps 0 2 3 (replicate 64 255));
    [lia | run | run | lia | run].
Defined.

(** The second sector stays as it was. *)
Lemma bitmap_reset_first_sector_only_witness :
  exists st',
    bitmap_reset two_bitmaps 0 2 3 = Done (0, st') /\
    open_files st' = open_files two_bitmaps /\
    (forall s, s <> 0 ->
       Disk_Read (the_disk st') s = Disk_Read (the_disk two_bitmaps) s).
Proof.
  eassert (Hrun : bitmap_reset two_bitmaps 0 2 3 = Done (0, _)) by run.
  eexists. split; [exact Hrun |].
  exact (bitmap_reset_first_sector_only two_bitmaps _ 0 2 3 0 Hrun).
Defined.

(** Bit 512 is the first bit past a sector of 64 bytes. *)
Lemma bitmap_reset_sector_boundary_witness :
  bitmap_reset two_bitmaps 0 2 512 = Crash OutOfBounds.
Proof.
  apply (bitmap_reset_sector_boundary two_bitmaps 0 2 512 (replicate 64 255));
    [run | lia | split; run | run].
Defined.

(** Allocating and freeing bit 8 of a bitmap of one sector. *)
Lemma bitmap_reset_undoes_first_unused_witness :
  (bitmap_first_unused two_bitmaps 1 1 16).1 = 8.
Proof.
  refine (proj1 (bitmap_reset_undoes_first_unused two_bitmaps 1 16 8
                   (255 :: 127 :: replicate 62 0) _ _ _ _ _ _)).
  - lia.
  - run.
  - run.
  - run.
  - run.
  - all_below 8 (bit_at (255 :: 127 :: replicate 62 0)).
Defined.


(** The small image boots again. *)
Lemma FS_Boot_formatted_image_boots_witness :
  check_magic (the_disk tiny_fresh) = true /\
  (FS_Boot busy_table true
           (Load_ok (the_disk tiny_fresh) (SECTOR_SIZE * TOTAL_SECTORS))
           false).1 = 0.
Proof.
  apply (FS_Boot_formatted_image_boots
           {| the_disk := []; open_files := []; osErrno := None |}
           tiny_fresh busy_table false); run.
Defined.

(** Twelve bits initialised in a sector of 64 bytes. *)
Lemma bitmap_init_first_sector_witness :
  exists buf,
    Disk_Read (bitmap_init (the_disk two_bitmaps) 0 1 12) 0 = Some buf /\
    forall k, 0 <= k < 8 * SECTOR_SIZE -> bit_at buf k = (k <? 12).
Proof.
  apply (bitmap_init_first_sector (the_disk two_bitmaps) 0 1 12
           (replicate 64 255)); [lia | run | run].
Defined.

(** Reading back the two bytes of [/g]. *)
Lemma File_Read_bounds_witness :
  exists st',
    File_Read tiny_rewound 0 2 = Done (2, [104; 105], st') /\
    the_disk st' = the_disk tiny_rewound.
Proof.
  eassert (Hrun : File_Read tiny_rewound 0 2 = Done (2, [104; 105], _))
    by run.
  eexists. split; [exact Hrun |].
  refine (proj1 (proj2 (proj2 (proj2
            (File_Read_bounds tiny_rewound _ 0 2 2 [104; 105] _ _ Hrun))))).
  - lia.
  - run.
Defined.


(** Writing two bytes to the empty file [/g]. *)
Lemma File_Write_table_witness :
  exists st',
    File_Write tiny_open 0 [104; 105] 2 = Done (2, st') /\
    open_files st'
    = <[0%nat := {| inode := 3; size := 2; pos := 2 |}]>
        (open_files tiny_open).
Proof.
  eassert (Hrun : File_Write tiny_open 0 [104; 105] 2 = Done (2, _)) by run.
  eexists. split; [exact Hrun |].
  refine (proj2 (File_Write_table tiny_open _ 0 2 2 [104; 105] _ _ _ Hrun));
    [run | lia | lia].
Defined.

(** Descriptor 1 is open on inode 2 and no entry of the table names inode
    1, so a read and a write on descriptor 1 are turned away.  Descriptor 0
    is closed, and with free slots about both calls on it go through its
    stale entry, which names inode 0: the read returns the first bytes of
    the root directory, the write goes to the same sector. *)
Lemma descriptor_checked_by_inode_number_witness :
  inode (slot tiny_one_closed 1) = 2 /\
  File_Read tiny_one_closed 1 2
  = Done (-1, [], set_errno E_BAD_FD tiny_one_closed) /\
  File_Write tiny_one_closed 1 [104; 105] 2
  = Done (-1, set_errno E_BAD_FD tiny_one_closed) /\
  slot tiny_one_closed 0 = {| inode := 0; size := 2; pos := 0 |} /\
  (exists st',
     File_Read tiny_one_closed 0 2 = Done (2, [100; 0], st') /\
     slot st' 0 = {| inode := 0; size := 2; pos := 2 |}) /\
  (exists st',
     File_Write tiny_one_closed 0 [104; 105] 2 = Done (2, st') /\
     slot st' 0 = {| inode := 0; size := 2; pos := 2 |}).
Proof.
  destruct (descriptor_checked_by_inode_number tiny_one_closed 1 2 [104; 105])
    as (_ & _ & _ & _ & _ & Hopen).
  destruct (descriptor_checked_by_inode_number tiny_one_closed 0 2 [104; 105])
    as (_ & _ & _ & _ & Hfree & _).
  destruct Hopen as [Hread Hwrite].
  { run. }
  { intros i Hi Heq.
    pose proof (checked_below
                  (fun i => negb (inode (slot tiny_one_closed i) =? 1))
                  MAX_OPEN_FILES ltac:(run) i Hi) as Hne.
    cbv beta in Hne. rewrite Heq in Hne. discriminate. }
  destruct (Hfree 2) as [(_ & Hreads & _) (_ & Hwrites & _)];
    [split; run | run |].
  eassert (Hinode : Disk_Read (the_disk tiny_one_closed)
                      (inode_sector_of (inode (slot tiny_one_closed 0)))
                    = Some _) by run.
  eassert (Hptr : inode_ptr
                    (inode_sector_of (inode (slot tiny_one_closed 0)))
                    (inode (slot tiny_one_closed 0)) = Done _) by run.
  eassert (Hdata : Disk_Read (the_disk tiny_one_closed) _ = Some _);
    [| specialize (Hreads _ _ _ ltac:(run) ltac:(lia) ltac:(split; run)
                          ltac:(run) ltac:(run) Hinode Hptr Hdata)].
  { run. }
  eassert (Halloc : allocate_sectors tiny_one_closed _ _ _
                    = Done (_, Some _));
    [| eassert (Hcopy : write_sectors _ _ _ _ _ _ _ _ _ = Done (_, _, _));
       [| specialize (Hwrites _ _ _ _ _ _ _ ltac:(run) ltac:(run)
                              Hinode Hptr Halloc Hcopy)]].
  { run. }
  { run. }
  split; [run |]. split; [exact Hread |]. split; [exact Hwrite |].
  split; [run |]. split.
  - eexists. split; [etransitivity; [exact Hreads |]; reflexivity | run].
  - eexists. split; [etransitivity; [exact Hwrites |]; reflexivity | run].
Defined.

End SmallImage.
